(** * Block template generation (mining.go)

    A shallow embedding of the block template generator of the prova node:
    the transaction priority queue and its two compare functions, the
    candidate builder with its dependency tracking, the assembly loop, the
    coinbase and header finalisation and the template refresher, followed
    by the properties established about them.

    Conventions.  Go's [int64] and [uint32] are integers of [Z] with the
    wrap-around written out ([Int.wrap64], [Int.wrapU32]); a [float64] is a
    [spec_float] compared with the IEEE comparisons of the Standard
    Library; a [chainhash.Hash] is the number its 32 bytes encode; a Go
    map is a [gmap], a nil map or nil pointer is [None]; a [time.Time] is
    a number of nanoseconds.  Objects that the Go code shares by pointer
    (the [*txPrioItem] values reachable from the queue and from the
    dependency map) live in an explicit store and are named by their
    address. *)

From Stdlib Require Import ZArith Lia SpecFloat.
From Stdlib.Strings Require Import Byte.
From stdpp Require Import gmap list.

(** ** Machine integers *)

Module Int.

Definition wrap64 (z : Z) : Z := ((z + 2 ^ 63) mod 2 ^ 64 - 2 ^ 63)%Z.
Definition wrapU32 (z : Z) : Z := (z mod 2 ^ 32)%Z.

Definition add64 (a b : Z) : Z := wrap64 (a + b).
Definition neg64 (a : Z) : Z := wrap64 (- a).
Definition mul64 (a b : Z) : Z := wrap64 (a * b).
(** Go's integer division truncates towards zero. *)
Definition quot64 (a b : Z) : Z := wrap64 (a ÷ b).

Definition addU32 (a b : Z) : Z := wrapU32 (a + b).
Definition subU32 (a b : Z) : Z := wrapU32 (a - b).

Definition in64 (z : Z) : Prop := (- 2 ^ 63 <= z < 2 ^ 63)%Z.
Definition inU32 (z : Z) : Prop := (0 <= z < 2 ^ 32)%Z.

(** [sum64 l] is the value a Go loop [for _, f := range l { s += f }]
    leaves in an [int64] accumulator. *)
Definition sum64 (l : list Z) : Z := foldl add64 0%Z l.

End Int.

(** ** Wire data *)

Abbreviation Hash := N (only parsing).
Abbreviation Script := (list byte) (only parsing).
(** Nanoseconds since the Unix epoch. *)
Abbreviation Time := Z (only parsing).

Definition Second : Z := 1000000000%Z.

Record OutPoint := mkOutPoint { opHash : Hash; opIndex : Z }.

Record TxIn := mkTxIn {
  PreviousOutPoint : OutPoint;
  SignatureScript : Script;
  Sequence : Z
}.

Record TxOut := mkTxOut { Value : Z; PkScript : Script }.

Record MsgTx := mkMsgTx {
  TxVersion : Z;
  txIn : list TxIn;
  txOut : list TxOut;
  LockTime : Z
}.

(** [provautil.Tx]: the wrapper of a message transaction.  Its hash,
    [tx.Hash()], is the hash of the message ([txHash] below). *)
Record Tx := mkTx { MsgTx_of : MsgTx }.

Record BlockHeader := mkBlockHeader {
  Version : Z;
  PrevBlock : Hash;
  MerkleRoot : Hash;
  Timestamp : Time;
  Bits : Z;
  Height : Z;
  Size : Z;
  Signature : option Script
}.

Record MsgBlock := mkMsgBlock {
  Header : BlockHeader;
  Transactions : list MsgTx
}.

Record BestState := mkBestState {
  bestHash : Hash;
  bestHeight : Z;
  MedianTime : Time
}.

(** ** Constants *)

Definition generatedBlockVersion : Z := 4.

(** [wire.MaxVarIntPayload] and [wire.VarIntSerializeSize]. *)
Definition MaxVarIntPayload : Z := 9.

Definition VarIntSerializeSize (val : Z) : Z :=
  if (val <? 253)%Z then 1
  else if (val <=? 65535)%Z then 3
  else if (val <=? 4294967295)%Z then 5
  else 9.

Definition coinbaseFlags : Script :=
  ["/"; "p"; "r"; "o"; "v"; "a"; "/"]%byte.

Definition OP_TRUE : byte := "Q"%byte.      (* 0x51 *)
Definition OP_RETURN : byte := "j"%byte.    (* 0x6a *)

(** ** Candidates *)

Module PrioItem.
Record txPrioItem := mk {
  tx : Tx;
  fee : Z;
  priority : spec_float;
  feePerKB : Z;
  isAdmin : bool;
  (** [None] is the nil map. *)
  dependsOn : option (gset Hash)
}.
End PrioItem.
Abbreviation txPrioItem := PrioItem.txPrioItem.

(** The zero value of a [float64]. *)
Definition float_zero : spec_float := S754_zero false.

(** Addresses of [txPrioItem] values and the memory that holds them. *)
Abbreviation ptr := nat (only parsing).
Abbreviation itemStore := (list txPrioItem) (only parsing).

(** ** Collaborators

    The packages the generator calls into ([txscript], [blockchain],
    [wire], [mining], [mempool]) are taken as parameters: one class per
    package, with the types they own left abstract. *)

Class Txscript := {
  Address : Type;
  ParsedScript : Type;
  ScriptClass : Type;
  ScriptClass_eq_dec :: EqDecision ScriptClass;
  ProvaAdminTy : ScriptClass;
  (** [None] is a parse error. *)
  ParseScript : Script -> option ParsedScript;
  TypeOfScript : ParsedScript -> ScriptClass;
  (** [None] is an error. *)
  PayToAddrScript : Address -> option Script
}.

Class Wire := {
  PrivateKey : Type;
  MaxBlockHeaderPayload : Z;
  (** [wire.TxVersion], the version [wire.NewMsgTx] gives a transaction. *)
  NewMsgTxVersion : Z;
  SerializeSize : MsgTx -> Z;
  (** [MsgTx.TxHash]. *)
  TxHashOf : MsgTx -> Hash;
  (** The signature [BlockHeader.Sign] computes, [None] when signing
      fails. *)
  SignHeader : PrivateKey -> BlockHeader -> option Script;
  (** Whether [MsgBlock.AddTransaction] reports an error. *)
  AddTransactionFails : MsgBlock -> MsgTx -> bool
}.

(** [tx.Hash()]. *)
Definition txHash `{Wire} (tx : Tx) : Hash := TxHashOf (MsgTx_of tx).

Class Blockchain := {
  UtxoEntry : Type;
  KeyViewpoint : Type;
  IsOutputSpent : UtxoEntry -> Z -> bool;
  IsFullySpent : UtxoEntry -> bool;
  SpendOutput : UtxoEntry -> Z -> UtxoEntry;
  AddTxOuts : gmap Hash (option UtxoEntry) -> Tx -> Z ->
              gmap Hash (option UtxoEntry);
  CalcBlockSubsidy : Z -> Z;
  MaxSigOpsPerBlock : Z;
  CountSigOps : Tx -> Z;
  (** [None] is an error. *)
  CountP2SHSigOps : Tx -> bool -> gmap Hash (option UtxoEntry) -> option Z;
  IsCoinBase : Tx -> bool;
  IsFinalizedTransaction : Tx -> Z -> Time -> bool;
  (** The three validation calls answer [true] when they return no
      error. *)
  CheckTransactionInputs : Tx -> Z -> gmap Hash (option UtxoEntry) -> bool;
  CheckTransactionOutputs : Tx -> KeyViewpoint -> bool;
  ValidateTransactionScripts :
    Tx -> gmap Hash (option UtxoEntry) -> KeyViewpoint -> bool;
  (** The last node of [BuildMerkleTreeStore]. *)
  BuildMerkleRoot : list Tx -> Hash
}.

Class Mining `{Blockchain} := {
  CalcPriority : MsgTx -> gmap Hash (option UtxoEntry) -> Z -> spec_float;
  (** [mempool.MinHighPriority]. *)
  MinHighPriority : spec_float
}.

Abbreviation UtxoViewpoint := (gmap Hash (option UtxoEntry)).

(** [view.LookupEntry]: a missing key and a nil entry both give nil. *)
Definition LookupEntry `{Blockchain} (view : UtxoViewpoint) (h : Hash)
  : option UtxoEntry :=
  match view !! h with
  | Some (Some e) => Some e
  | _ => None
  end.

(** ** isAdmin *)

Section IsAdmin.
Context `{Txscript}.

Fixpoint isAdmin_outs (outs : list TxOut) : bool :=
  match outs with
  | [] => false
  | txOut :: rest =>
      match ParseScript (PkScript txOut) with
      | None => false
      | Some pops =>
          if decide (TypeOfScript pops = ProvaAdminTy) then true
          else isAdmin_outs rest
      end
  end.

Definition isAdmin (msgTx : MsgTx) : bool := isAdmin_outs (txOut msgTx).

(** What the documentation of [isAdmin] describes: some output has an
    admin script. *)
Definition has_admin_output (msgTx : MsgTx) : Prop :=
  ∃ o pops, o ∈ txOut msgTx ∧ ParseScript (PkScript o) = Some pops ∧
            TypeOfScript pops = ProvaAdminTy.

End IsAdmin.

(** ** The priority queue *)

(** [pq.items[i]], dereferenced; [None] is the run-time panic of an index
    out of range. *)
Definition item_at (st : itemStore) (items : list ptr) (i : nat)
  : option txPrioItem :=
  p ← items !! i; st !! p.

Definition txPriorityQueueLessFunc : Type :=
  itemStore -> list ptr -> nat -> nat -> option bool.

Record txPriorityQueue := mkPQ {
  lessFunc : txPriorityQueueLessFunc;
  items : list ptr
}.

Definition txPQByPriority : txPriorityQueueLessFunc := fun st items i j =>
  a ← item_at st items i;
  if PrioItem.isAdmin a then Some true
  else
    b ← item_at st items j;
    if SFeqb (PrioItem.priority a) (PrioItem.priority b)
    then Some (PrioItem.feePerKB b <? PrioItem.feePerKB a)%Z
    else Some (SFltb (PrioItem.priority b) (PrioItem.priority a)).

Definition txPQByFee : txPriorityQueueLessFunc := fun st items i j =>
  a ← item_at st items i;
  if PrioItem.isAdmin a then Some true
  else
    b ← item_at st items j;
    if (PrioItem.feePerKB a =? PrioItem.feePerKB b)%Z
    then Some (SFltb (PrioItem.priority b) (PrioItem.priority a))
    else Some (PrioItem.feePerKB b <? PrioItem.feePerKB a)%Z.

(** The same comparisons on two candidates, as [Less] sees them once the
    indices are resolved. *)
Definition lessByPriority (a b : txPrioItem) : bool :=
  if PrioItem.isAdmin a then true
  else if SFeqb (PrioItem.priority a) (PrioItem.priority b)
       then (PrioItem.feePerKB b <? PrioItem.feePerKB a)%Z
       else SFltb (PrioItem.priority b) (PrioItem.priority a).

Definition lessByFee (a b : txPrioItem) : bool :=
  if PrioItem.isAdmin a then true
  else if (PrioItem.feePerKB a =? PrioItem.feePerKB b)%Z
       then SFltb (PrioItem.priority b) (PrioItem.priority a)
       else (PrioItem.feePerKB b <? PrioItem.feePerKB a)%Z.

Definition Len (pq : txPriorityQueue) : nat := length (items pq).

(** [pq.Less]; the heap only calls it inside the bounds, where it is
    defined. *)
Definition Less (st : itemStore) (pq : txPriorityQueue) (i j : nat) : bool :=
  default false (lessFunc pq st (items pq) i j).

(** [pq.Swap]; the heap only calls it inside the bounds too. *)
Definition Swap (pq : txPriorityQueue) (i j : nat) : txPriorityQueue :=
  match items pq !! i, items pq !! j with
  | Some a, Some b => mkPQ (lessFunc pq) (<[i := b]> (<[j := a]> (items pq)))
  | _, _ => pq
  end.

(** [container/heap]: [up], [down], [Init], [Push] and [Pop].  The loops
    of [up] and [down] move an index strictly towards the root or the
    leaves, so the length of the queue bounds their iterations. *)
Fixpoint heap_up (st : itemStore) (fuel : nat) (pq : txPriorityQueue)
  (j : nat) : txPriorityQueue :=
  match fuel with
  | O => pq
  | S fuel' =>
      let i := (j - 1) / 2 in
      if decide (i = j) then pq
      else if negb (Less st pq j i) then pq
      else heap_up st fuel' (Swap pq i j) i
  end.

Fixpoint heap_down (st : itemStore) (fuel : nat) (pq : txPriorityQueue)
  (i n : nat) : txPriorityQueue :=
  match fuel with
  | O => pq
  | S fuel' =>
      let j1 := 2 * i + 1 in
      if decide (n ≤ j1) then pq
      else
        let j2 := j1 + 1 in
        let j := if decide (j2 < n) then
                   (if Less st pq j2 j1 then j2 else j1)
                 else j1 in
        if negb (Less st pq j i) then pq
        else heap_down st fuel' (Swap pq i j) j n
  end.

Fixpoint heap_init_from (st : itemStore) (k : nat) (pq : txPriorityQueue)
  (n : nat) : txPriorityQueue :=
  match k with
  | O => pq
  | S i => heap_init_from st i (heap_down st n pq i n) n
  end.

Definition heap_Init (st : itemStore) (pq : txPriorityQueue)
  : txPriorityQueue :=
  let n := Len pq in heap_init_from st (n / 2) pq n.

Definition heap_Push (st : itemStore) (pq : txPriorityQueue) (x : ptr)
  : txPriorityQueue :=
  let pq' := mkPQ (lessFunc pq) (items pq ++ [x]) in
  heap_up st (Len pq') pq' (Len pq' - 1).

(** [None] when the queue is empty (the Go code would panic). *)
Definition heap_Pop (st : itemStore) (pq : txPriorityQueue)
  : option (ptr * txPriorityQueue) :=
  match Len pq with
  | O => None
  | S n =>
      let pq1 := heap_down st n (Swap pq 0 n) 0 n in
      x ← items pq1 !! n;
      Some (x, mkPQ (lessFunc pq1) (take n (items pq1)))
  end.

Definition SetLessFunc (st : itemStore) (pq : txPriorityQueue)
  (f : txPriorityQueueLessFunc) : txPriorityQueue :=
  heap_Init st (mkPQ f (items pq)).

Definition newTxPriorityQueue (st : itemStore) (sortByFee : bool)
  : txPriorityQueue :=
  if sortByFee then SetLessFunc st (mkPQ txPQByFee []) txPQByFee
  else SetLessFunc st (mkPQ txPQByPriority []) txPQByPriority.

(** ** Scripts of the coinbase *)

(** [txscript.ScriptBuilder]: the script built so far and whether an
    earlier operation failed. *)
Record ScriptBuilder := mkSB { sb_script : Script; sb_err : bool }.

Definition maxScriptSize : Z := 10000.

Definition NewScriptBuilder : ScriptBuilder := mkSB [] false.

(** Modelled from the spec: [ScriptBuilder.AddOp] (package txscript, not
    under src/) appends the single opcode, as in "the single opcode
    ALWAYS-TRUE" and "a single opcode RETURN"; an operation on a script
    that would grow past the maximum script size fails. *)
Definition AddOp (b : ScriptBuilder) (op : byte) : ScriptBuilder :=
  if sb_err b then b
  else if (maxScriptSize <? Z.of_nat (length (sb_script b)) + 1)%Z
       then mkSB (sb_script b) true
       else mkSB (sb_script b ++ [op]) false.

(** [ScriptBuilder.Script]: the script, or [None] for the error. *)
Definition Script_of (b : ScriptBuilder) : option Script :=
  if sb_err b then None else Some (sb_script b).

Class ScriptData := {
  (** [NewScriptBuilder().AddData(data).Script()]. *)
  AddDataScript : Script -> option Script
}.

Definition standardCoinbaseScript `{ScriptData} : option Script :=
  AddDataScript coinbaseFlags.

Definition MaxPrevOutIndex : Z := 4294967295.
Definition MaxTxInSequenceNum : Z := 4294967295.

Section Coinbase.
Context `{Txscript} `{Wire} `{Blockchain}.

(** [provautil.NewTx]. *)
Definition NewTx (msgTx : MsgTx) : Tx := mkTx msgTx.

Definition createCoinbaseTx (coinbaseScript : Script) (nextBlockHeight : Z)
  (addr : option Address) : option Tx :=
  pkScript ← match addr with
             | Some a => PayToAddrScript a
             | None => Script_of (AddOp NewScriptBuilder OP_TRUE)
             end;
  let tx :=
    mkMsgTx NewMsgTxVersion
      [mkTxIn (mkOutPoint 0%N MaxPrevOutIndex) coinbaseScript
              MaxTxInSequenceNum]
      [mkTxOut (CalcBlockSubsidy nextBlockHeight) pkScript]
      nextBlockHeight in
  Some (NewTx tx).

End Coinbase.

(** ** The working utxo view *)

Section UtxoView.
Context `{Blockchain}.

Definition mergeUtxoView (viewA viewB : UtxoViewpoint) : UtxoViewpoint :=
  foldl (fun viewAEntries '(hash, entryB) =>
           match viewAEntries !! hash with
           | None => <[hash := entryB]> viewAEntries
           | Some None => <[hash := entryB]> viewAEntries
           | Some (Some entryA) =>
               if IsFullySpent entryA then <[hash := entryB]> viewAEntries
               else viewAEntries
           end)
        viewA (map_to_list viewB).

Definition spendTransaction (utxoView : UtxoViewpoint) (tx : Tx) (height : Z)
  : UtxoViewpoint :=
  let view1 :=
    foldl (fun view txIn =>
             let originHash := opHash (PreviousOutPoint txIn) in
             let originIndex := opIndex (PreviousOutPoint txIn) in
             match LookupEntry view originHash with
             | Some entry =>
                 <[originHash := Some (SpendOutput entry originIndex)]> view
             | None => view
             end)
          utxoView (txIn (MsgTx_of tx)) in
  AddTxOuts view1 tx height.

End UtxoView.

(** ** Time *)

Record MedianTimeSource := mkTimeSource {
  (** The reading the [n]-th call of [AdjustedTime] returns. *)
  AdjustedTime : nat -> Time
}.

Definition minimumMedianTime (chainState : BestState) : Time :=
  (MedianTime chainState + Second)%Z.

(** [now] is the reading [timeSource.AdjustedTime()] returns at this
    call. *)
Definition medianAdjustedTime (chainState : BestState) (now : Time) : Time :=
  let newTimestamp := now in
  let minTimestamp := minimumMedianTime chainState in
  if (newTimestamp <? minTimestamp)%Z then minTimestamp else newTimestamp.

(** A time truncated to a second boundary, [time.Unix(t.Unix(), 0)]. *)
Definition truncate_to_second (t : Time) : Time :=
  (t - t mod Second)%Z.

(** ** The generator *)

Record Policy := mkPolicy {
  BlockMinSize : Z;
  BlockMaxSize : Z;
  BlockPrioritySize : Z;
  TxMinFreeFee : Z
}.

Record TxDesc := mkTxDesc { Tx_of : Tx; Fee : Z }.

Record TxSource := mkTxSource {
  MiningDescs : list TxDesc;
  HaveTransaction : Hash -> bool
}.

(** [blockManager.chain]. *)
Record Chain `{Blockchain} := mkChain {
  BestSnapshot : BestState;
  FetchUtxoView : Tx -> option UtxoViewpoint;
  (** The key view [NewBlockTemplate] fills from [LastKeyID],
      [AdminKeySets] and [KeyIDs]. *)
  chainKeyView : KeyViewpoint;
  CalcNextRequiredDifficulty : option Z;
  (** [true] when the block connects without error. *)
  CheckConnectBlock : MsgBlock -> bool
}.

Record BlkTmplGenerator `{Blockchain} := mkGen {
  policy : Policy;
  txSource : TxSource;
  chain : Chain;
  timeSource : MedianTimeSource
}.

Record BlockTemplate := mkTemplate {
  Block : MsgBlock;
  Fees : list Z;
  SigOpCounts : list Z;
  TemplateHeight : Z;
  ValidPayAddress : bool
}.

(** The order in which [range] visits a map is not specified by Go; it is
    a parameter, constrained to visit every entry once. *)
Class MapRange := {
  range_deps : gmap Hash ptr -> list (Hash * ptr);
  range_deps_perm : ∀ m, range_deps m ≡ₚ map_to_list m
}.

(** Modelled from the spec: [BlockHeader.Sign] (package wire, not under
    src/) signs "the header with the validator's private key" and stores
    the signature in the header; "only header timestamp and signature may
    change".  When signing fails the header is left as it was.  The
    boolean tells whether signing succeeded; the callers in this file drop
    it. *)
Definition Sign `{Wire} (h : BlockHeader) (key : PrivateKey)
  : BlockHeader * bool :=
  match SignHeader key h with
  | Some sig =>
      (mkBlockHeader (Version h) (PrevBlock h) (MerkleRoot h) (Timestamp h)
                     (Bits h) (Height h) (Size h) (Some sig), true)
  | None => (h, false)
  end.

(** ** Results *)

Inductive Error :=
| ErrCoinbaseScript | ErrCoinbaseTx | ErrNullScript | ErrDifficulty
| ErrAddTransaction | ErrCheckConnect.

(** What a call does: it returns a value, returns an error, panics, or is
    still running when the fuel of the model is spent. *)
Inductive Result (A : Type) :=
| Ok (a : A) | Err (e : Error) | Panic | OutOfFuel.
Arguments Ok {A} a.
Arguments Err {A} e.
Arguments Panic {A}.
Arguments OutOfFuel {A}.

#[global] Instance Result_bind : MBind Result := fun A B f m =>
  match m with
  | Ok a => f a
  | Err e => Err e
  | Panic => Panic
  | OutOfFuel => OutOfFuel
  end.

Definition or_error {A} (e : Error) (o : option A) : Result A :=
  match o with Some a => Ok a | None => Err e end.

Definition or_panic {A} (o : option A) : Result A :=
  match o with Some a => Ok a | None => Panic end.

(** ** What happens to the candidates

    The pushes, pops, skips and additions in the order the code performs
    them; the Go code logs the skips and additions at trace level. *)
Inductive PushKind := ByBuilder | ByPromotion | ByTransition.

Inductive Event :=
| Pushed (k : PushKind) (p : ptr)
| Popped (p : ptr)
| Skipped (p : ptr)
| Added (p : ptr)
| Switched.

#[global] Instance PushKind_eq_dec : EqDecision PushKind.
Proof. solve_decision. Defined.
#[global] Instance Event_eq_dec : EqDecision Event.
Proof. solve_decision. Defined.

(** ** The candidate builder (the loop over the source pool) *)

Section Generator.
Context `{Txscript} `{Wire} `{Blockchain} `{!Mining} `{ScriptData} `{MapRange}.

Record builderState := mkBuilder {
  b_store : itemStore;
  b_priorityQueue : txPriorityQueue;
  b_dependers : gmap Hash (gmap Hash ptr);
  b_blockUtxos : UtxoViewpoint;
  (** How many times [AdjustedTime] has been called. *)
  b_clock : nat;
  b_trace : list Event
}.

Definition add_dependsOn (h : Hash) (it : txPrioItem) : txPrioItem :=
  PrioItem.mk (PrioItem.tx it) (PrioItem.fee it) (PrioItem.priority it)
    (PrioItem.feePerKB it) (PrioItem.isAdmin it)
    (Some ({[h]} ∪ default ∅ (PrioItem.dependsOn it))).

Definition delete_dependsOn (h : Hash) (it : txPrioItem) : txPrioItem :=
  PrioItem.mk (PrioItem.tx it) (PrioItem.fee it) (PrioItem.priority it)
    (PrioItem.feePerKB it) (PrioItem.isAdmin it)
    ((fun s => s ∖ {[h]}) <$> PrioItem.dependsOn it).

(** [len(item.dependsOn)] is zero for the nil map and for the empty map. *)
Definition dependsOn_empty (it : txPrioItem) : bool :=
  match PrioItem.dependsOn it with
  | None => true
  | Some s => bool_decide (s = ∅)
  end.

(** Whether the builder has to look for the referenced output in the
    source pool: the view has no entry for it or the output is spent. *)
Definition input_unavailable (utxos : UtxoViewpoint) (txIn : TxIn) : bool :=
  match LookupEntry utxos (opHash (PreviousOutPoint txIn)) with
  | None => true
  | Some utxoEntry => IsOutputSpent utxoEntry (opIndex (PreviousOutPoint txIn))
  end.

(** The loop over the inputs of one transaction.  The boolean is [false]
    when the loop left through [continue mempoolLoop]; the store and the
    dependency map keep what the earlier inputs wrote. *)
Fixpoint setup_dependencies (src : TxSource) (utxos : UtxoViewpoint)
  (child : Hash) (p : ptr) (ins : list TxIn)
  (store : itemStore) (dependers : gmap Hash (gmap Hash ptr))
  : itemStore * gmap Hash (gmap Hash ptr) * bool :=
  match ins with
  | [] => (store, dependers, true)
  | txIn :: rest =>
      let originHash := opHash (PreviousOutPoint txIn) in
      if input_unavailable utxos txIn then
        if negb (HaveTransaction src originHash) then
          (store, dependers, false)
        else
          let deps := default ∅ (dependers !! originHash) in
          let dependers' := <[originHash := <[child := p]> deps]> dependers in
          let store' := alter (add_dependsOn originHash) p store in
          setup_dependencies src utxos child p rest store' dependers'
      else setup_dependencies src utxos child p rest store dependers
  end.

Definition set_metadata (prio : spec_float) (perKB fee : Z) (admin : bool)
  (it : txPrioItem) : txPrioItem :=
  PrioItem.mk (PrioItem.tx it) fee prio perKB admin (PrioItem.dependsOn it).

(** One iteration of [mempoolLoop].  [None] is the panic of an integer
    division by zero. *)
Definition consider (g : BlkTmplGenerator) (nextBlockHeight : Z)
  (b : builderState) (txDesc : TxDesc) : option builderState :=
  let tx := Tx_of txDesc in
  if IsCoinBase tx then Some b
  else
    let now := AdjustedTime (timeSource g) (b_clock b) in
    let clock' := S (b_clock b) in
    if negb (IsFinalizedTransaction tx nextBlockHeight now) then
      Some (mkBuilder (b_store b) (b_priorityQueue b) (b_dependers b)
                      (b_blockUtxos b) clock' (b_trace b))
    else
      match FetchUtxoView (chain g) tx with
      | None =>
          Some (mkBuilder (b_store b) (b_priorityQueue b) (b_dependers b)
                          (b_blockUtxos b) clock' (b_trace b))
      | Some utxos =>
          (* prioItem := &txPrioItem{tx: tx} *)
          let p := length (b_store b) in
          let store0 :=
            b_store b ++ [PrioItem.mk tx 0 float_zero 0 false None] in
          let '(store1, dependers1, complete) :=
            setup_dependencies (txSource g) utxos (txHash tx) p
              (txIn (MsgTx_of tx)) store0 (b_dependers b) in
          if negb complete then
            Some (mkBuilder store1 (b_priorityQueue b) dependers1
                            (b_blockUtxos b) clock' (b_trace b))
          else
            let prio := CalcPriority (MsgTx_of tx) utxos nextBlockHeight in
            let txSize := Int.wrap64 (SerializeSize (MsgTx_of tx)) in
            if (txSize =? 0)%Z then None
            else
              let perKB := Int.quot64 (Int.mul64 (Fee txDesc) 1000) txSize in
              let store2 :=
                alter (set_metadata prio perKB (Fee txDesc)
                         (isAdmin (MsgTx_of tx))) p store1 in
              let nodeps :=
                match store2 !! p with
                | Some it => bool_decide (PrioItem.dependsOn it = None)
                | None => false
                end in
              let '(pq', trace') :=
                if nodeps
                then (heap_Push store2 (b_priorityQueue b) p,
                      b_trace b ++ [Pushed ByBuilder p])
                else (b_priorityQueue b, b_trace b) in
              Some (mkBuilder store2 pq' dependers1
                              (mergeUtxoView (b_blockUtxos b) utxos)
                              clock' trace')
      end.

Fixpoint mempoolLoop (g : BlkTmplGenerator) (nextBlockHeight : Z)
  (b : builderState) (sourceTxns : list TxDesc) : option builderState :=
  match sourceTxns with
  | [] => Some b
  | txDesc :: rest =>
      b' ← consider g nextBlockHeight b txDesc;
      mempoolLoop g nextBlockHeight b' rest
  end.

End Generator.

(** ** The assembly loop *)

Section Assembly.
Context `{Txscript} `{Wire} `{Blockchain} `{!Mining} `{ScriptData} `{MapRange}.

Record asmState := mkAsm {
  store : itemStore;
  priorityQueue : txPriorityQueue;
  blockUtxos : UtxoViewpoint;
  blockTxns : list Tx;
  blockSize : Z;
  blockSigOps : Z;
  totalFees : Z;
  txFees : list Z;
  txSigOpCounts : list Z;
  sortedByFee : bool;
  trace : list Event
}.

(** [continue] after a pop: the candidate is dropped, nothing else
    changes. *)
Definition skip_tx (s : asmState) (pq : txPriorityQueue) (p : ptr)
  : asmState :=
  mkAsm (store s) pq (blockUtxos s) (blockTxns s) (blockSize s)
        (blockSigOps s) (totalFees s) (txFees s) (txSigOpCounts s)
        (sortedByFee s) (trace s ++ [Skipped p]).

(** The loop over [deps] that follows an addition: the hash of the added
    transaction is deleted from the [dependsOn] of each dependent, which
    is pushed when nothing is left. *)
Fixpoint promote (parent : Hash) (deps : list (Hash * ptr))
  (st : itemStore) (pq : txPriorityQueue) (tr : list Event)
  : itemStore * txPriorityQueue * list Event :=
  match deps with
  | [] => (st, pq, tr)
  | (_, q) :: rest =>
      let st' := alter (delete_dependsOn parent) q st in
      match st' !! q with
      | Some item =>
          if dependsOn_empty item
          then promote parent rest st' (heap_Push st' pq q)
                       (tr ++ [Pushed ByPromotion q])
          else promote parent rest st' pq tr
      | None => promote parent rest st' pq tr
      end
  end.

(** The size gate. *)
Definition exceeds_block_size (pol : Policy) (blockSize blockPlusTxSize : Z)
  : bool :=
  (blockPlusTxSize <? blockSize)%Z || (BlockMaxSize pol <=? blockPlusTxSize)%Z.

(** The signature operation gate. *)
Definition exceeds_sigops (blockSigOps numSigOps : Z) : bool :=
  (Int.add64 blockSigOps numSigOps <? blockSigOps)%Z
  || (MaxSigOpsPerBlock <? Int.add64 blockSigOps numSigOps)%Z.

(** The addition of a validated transaction to the block. *)
Definition add_tx (g : BlkTmplGenerator) (nextBlockHeight : Z)
  (s : asmState) (pq : txPriorityQueue) (sorted : bool) (tr : list Event)
  (p : ptr) (prioItem : txPrioItem) (txSize numSigOps : Z)
  (deps : option (gmap Hash ptr)) : asmState :=
  let tx := PrioItem.tx prioItem in
  let utxos' := spendTransaction (blockUtxos s) tx nextBlockHeight in
  let '(st', pq', tr') :=
    promote (txHash tx)
      (match deps with Some m => range_deps m | None => [] end)
      (store s) pq (tr ++ [Added p]) in
  mkAsm st' pq' utxos'
        (blockTxns s ++ [tx])
        (Int.addU32 (blockSize s) txSize)
        (Int.add64 (blockSigOps s) numSigOps)
        (Int.add64 (totalFees s) (PrioItem.fee prioItem))
        (txFees s ++ [PrioItem.fee prioItem])
        (txSigOpCounts s ++ [numSigOps])
        sorted tr'.

(** The three validation calls that precede an addition. *)
Definition validate_tx (g : BlkTmplGenerator) (nextBlockHeight : Z)
  (utxos : UtxoViewpoint) (tx : Tx) : bool :=
  CheckTransactionInputs tx nextBlockHeight utxos
  && CheckTransactionOutputs tx (chainKeyView (chain g))
  && ValidateTransactionScripts tx utxos (chainKeyView (chain g)).

(** One iteration of the loop [for priorityQueue.Len() > 0].  [None] is a
    panic (a pop of the empty queue, an address outside the store). *)
Definition loop_body (g : BlkTmplGenerator) (nextBlockHeight : Z)
  (dependers : gmap Hash (gmap Hash ptr)) (s : asmState) : option asmState :=
  '(p, pq1) ← heap_Pop (store s) (priorityQueue s);
  prioItem ← store s !! p;
  let s := mkAsm (store s) (priorityQueue s) (blockUtxos s) (blockTxns s)
                 (blockSize s) (blockSigOps s) (totalFees s) (txFees s)
                 (txSigOpCounts s) (sortedByFee s) (trace s ++ [Popped p]) in
  let tx := PrioItem.tx prioItem in
  let deps := dependers !! txHash tx in
  let txSize := Int.wrapU32 (SerializeSize (MsgTx_of tx)) in
  let blockPlusTxSize := Int.addU32 (blockSize s) txSize in
  if exceeds_block_size (policy g) (blockSize s) blockPlusTxSize
  then Some (skip_tx s pq1 p)
  else
    let numSigOps := CountSigOps tx in
    if exceeds_sigops (blockSigOps s) numSigOps then Some (skip_tx s pq1 p)
    else
      match CountP2SHSigOps tx false (blockUtxos s) with
      | None => Some (skip_tx s pq1 p)
      | Some numP2SHSigOps =>
          let numSigOps := Int.add64 numSigOps numP2SHSigOps in
          if exceeds_sigops (blockSigOps s) numSigOps
          then Some (skip_tx s pq1 p)
          else if sortedByFee s
                  && (PrioItem.feePerKB prioItem <? TxMinFreeFee (policy g))%Z
                  && (BlockMinSize (policy g) <=? blockPlusTxSize)%Z
          then Some (skip_tx s pq1 p)
          else
            let switch :=
              negb (sortedByFee s)
              && ((BlockPrioritySize (policy g) <=? blockPlusTxSize)%Z
                  || SFleb (PrioItem.priority prioItem) MinHighPriority) in
            let pushback :=
              switch
              && ((BlockPrioritySize (policy g) <? blockPlusTxSize)%Z
                  || SFltb (PrioItem.priority prioItem) MinHighPriority) in
            let sorted := sortedByFee s || switch in
            let pq2 :=
              if switch then SetLessFunc (store s) pq1 txPQByFee else pq1 in
            let tr2 := if switch then trace s ++ [Switched] else trace s in
            if pushback then
              Some (mkAsm (store s) (heap_Push (store s) pq2 p)
                          (blockUtxos s) (blockTxns s) (blockSize s)
                          (blockSigOps s) (totalFees s) (txFees s)
                          (txSigOpCounts s) sorted
                          (tr2 ++ [Pushed ByTransition p]))
            else if negb (validate_tx g nextBlockHeight (blockUtxos s) tx)
            then Some (mkAsm (store s) pq2 (blockUtxos s) (blockTxns s)
                             (blockSize s) (blockSigOps s) (totalFees s)
                             (txFees s) (txSigOpCounts s) sorted
                             (tr2 ++ [Skipped p]))
            else Some (add_tx g nextBlockHeight s pq2 sorted tr2 p prioItem
                              txSize numSigOps deps)
      end.

(** The loop, with the number of iterations it may take. *)
Fixpoint assemble (fuel : nat) (g : BlkTmplGenerator) (nextBlockHeight : Z)
  (dependers : gmap Hash (gmap Hash ptr)) (s : asmState) : Result asmState :=
  if decide (Len (priorityQueue s) = 0) then Ok s
  else
    match fuel with
    | O => OutOfFuel
    | S fuel' =>
        s' ← or_panic (loop_body g nextBlockHeight dependers s);
        assemble fuel' g nextBlockHeight dependers s'
    end.

End Assembly.

(** ** NewBlockTemplate and UpdateBlockTime *)

Section Template.
Context `{Txscript} `{Wire} `{Blockchain} `{!Mining} `{ScriptData} `{MapRange}.

Definition blockHeaderOverhead : Z := MaxBlockHeaderPayload + MaxVarIntPayload.

(** [coinbaseTx.MsgTx().TxOut[0]] with a new value and script; [None] when
    the coinbase has no output (an index out of range). *)
Definition set_coinbase_out (cb : MsgTx) (value : Z) (pkScript : Script)
  : option MsgTx :=
  match txOut cb with
  | [] => None
  | _ :: outs =>
      Some (mkMsgTx (TxVersion cb) (txIn cb) (mkTxOut value pkScript :: outs)
                    (LockTime cb))
  end.

(** The state the assembly loop starts from, or the panic of the builder. *)
Definition start_assembly (g : BlkTmplGenerator) (nextBlockHeight : Z)
  (coinbaseTx : Tx)
  : option (gmap Hash (gmap Hash ptr) * nat * asmState) :=
  let numCoinbaseSigOps := CountSigOps coinbaseTx in
  let sourceTxns := MiningDescs (txSource g) in
  let sortedByFee := (BlockPrioritySize (policy g) =? 0)%Z in
  let b0 := mkBuilder [] (newTxPriorityQueue [] sortedByFee) ∅ ∅ 0 [] in
  b ← mempoolLoop g nextBlockHeight b0 sourceTxns;
  let blockSize :=
    Int.addU32 blockHeaderOverhead
               (Int.wrapU32 (SerializeSize (MsgTx_of coinbaseTx))) in
  Some (b_dependers b, b_clock b,
        mkAsm (b_store b) (b_priorityQueue b) (b_blockUtxos b)
              [coinbaseTx] blockSize numCoinbaseSigOps 0
              [(-1)%Z] [numCoinbaseSigOps] sortedByFee (b_trace b)).

(** What follows the loop: the coinbase and size fix-ups, the header, the
    signature and the final check. *)
Definition finish_template (g : BlkTmplGenerator) (best : BestState)
  (nextBlockHeight : Z) (validPayAddress : bool) (validateKey : PrivateKey)
  (clock : nat) (s : asmState) : Result BlockTemplate :=
  let blockSize :=
    Int.subU32 (blockSize s)
      (Int.subU32 MaxVarIntPayload
         (Int.wrapU32
            (VarIntSerializeSize (Z.of_nat (length (blockTxns s)))))) in
  coinbaseTx ← or_panic (blockTxns s !! 0);
  out0 ← or_panic (txOut (MsgTx_of coinbaseTx) !! 0);
  let value := Int.add64 (Value out0) (totalFees s) in
  let txFees := <[0 := Int.neg64 (totalFees s)]> (txFees s) in
  '(blockSize, pkScript) ←
    (if (value =? 0)%Z then
       let cbScriptByteLen := Z.of_nat (length (PkScript out0)) in
       nullScript ←
         or_error ErrNullScript (Script_of (AddOp NewScriptBuilder OP_RETURN));
       Ok (Int.subU32 blockSize
             (Int.wrapU32 (cbScriptByteLen - Z.of_nat (length nullScript))),
           nullScript)
     else Ok (blockSize, PkScript out0));
  cbMsg ← or_panic (set_coinbase_out (MsgTx_of coinbaseTx) value pkScript);
  (* the coinbase is shared by pointer with blockTxns[0] *)
  let blockTxns := <[0 := NewTx cbMsg]> (blockTxns s) in
  let ts := medianAdjustedTime best (AdjustedTime (timeSource g) clock) in
  reqDifficulty ←
    or_error ErrDifficulty (CalcNextRequiredDifficulty (chain g));
  let header :=
    mkBlockHeader generatedBlockVersion (bestHash best)
      (BuildMerkleRoot blockTxns) ts reqDifficulty
      (Int.wrapU32 nextBlockHeight) blockSize None in
  let header := fst (Sign header validateKey) in
  msgBlock ←
    foldl (fun acc tx =>
             b ← acc;
             if AddTransactionFails b (MsgTx_of tx) then Err ErrAddTransaction
             else Ok (mkMsgBlock (Header b)
                                 (Transactions b ++ [MsgTx_of tx])))
          (Ok (mkMsgBlock header [])) blockTxns;
  if negb (CheckConnectBlock (chain g) msgBlock) then Err ErrCheckConnect
  else Ok (mkTemplate msgBlock txFees (txSigOpCounts s) nextBlockHeight
                      validPayAddress).

Definition NewBlockTemplate (fuel : nat) (g : BlkTmplGenerator)
  (payToAddress : option Address) (validateKey : PrivateKey)
  : Result BlockTemplate :=
  let best := BestSnapshot (chain g) in
  let nextBlockHeight := Int.wrapU32 (bestHeight best + 1) in
  coinbaseScript ← or_error ErrCoinbaseScript standardCoinbaseScript;
  coinbaseTx ←
    or_error ErrCoinbaseTx
      (createCoinbaseTx coinbaseScript nextBlockHeight payToAddress);
  '(dependers, clock, s0) ←
    or_panic (start_assembly g nextBlockHeight coinbaseTx);
  s ← assemble fuel g nextBlockHeight dependers s0;
  finish_template g best nextBlockHeight
    (bool_decide (payToAddress ≠ None)) validateKey clock s.

(** [UpdateBlockTime] changes the block it is passed; the model returns
    the block after the call together with the returned error, [None]
    for nil.  [clock] is the number of earlier readings of the time
    source. *)
Definition UpdateBlockTime (g : BlkTmplGenerator) (clock : nat)
  (msgBlock : MsgBlock) (validateKey : PrivateKey)
  : MsgBlock * option Error :=
  let best := BestSnapshot (chain g) in
  let newTimestamp :=
    medianAdjustedTime best (AdjustedTime (timeSource g) clock) in
  let h := Header msgBlock in
  let h1 :=
    mkBlockHeader (Version h) (PrevBlock h) (MerkleRoot h) newTimestamp
                  (Bits h) (Height h) (Size h) (Signature h) in
  let h2 := fst (Sign h1 validateKey) in
  (mkMsgBlock h2 (Transactions msgBlock), None).

End Template.

(** ** A concrete environment

    Small instances of the collaborators, used to run the model on
    explicit inputs: scripts are classified by their first byte, a
    transaction is as large as its wire encoding without witness data,
    the hash of a message is its lock time, the chain accepts everything
    and the clock is a fixed sequence. *)

Module Example.
Local Open Scope Z_scope.

Inductive ExScriptClass := NonStandardTy | ExProvaAdminTy.

#[global] Instance ExScriptClass_eq_dec : EqDecision ExScriptClass.
Proof. solve_decision. Defined.

(** A script that ends inside a data push does not parse: here the one
    byte script [OP_DATA_1]. *)
Definition ex_ParseScript (s : Script) : option Script :=
  match s with
  | ["001"%byte] => None
  | _ => Some s
  end.

(** The example admin script is the one byte [0xbb]. *)
Definition ex_TypeOfScript (s : Script) : ExScriptClass :=
  match s with
  | ["187"%byte] => ExProvaAdminTy
  | _ => NonStandardTy
  end.

#[global] Instance ex_txscript : Txscript := {|
  Address := Script;
  ParsedScript := Script;
  ScriptClass := ExScriptClass;
  ProvaAdminTy := ExProvaAdminTy;
  ParseScript := ex_ParseScript;
  TypeOfScript := ex_TypeOfScript;
  PayToAddrScript := fun a => Some a
|}.

Definition ex_SerializeSize (m : MsgTx) : Z :=
  (8 + 1 + 1
   + foldr (fun i acc => 41 + Z.of_nat (length (SignatureScript i)) + acc) 0
           (txIn m)
   + foldr (fun o acc => 9 + Z.of_nat (length (PkScript o)) + acc) 0
           (txOut m))%Z.

#[global] Instance ex_wire : Wire := {|
  PrivateKey := unit;
  MaxBlockHeaderPayload := 181;
  NewMsgTxVersion := 1;
  SerializeSize := ex_SerializeSize;
  TxHashOf := fun m => Z.to_N (LockTime m);
  SignHeader := fun _ _ => Some ["083"%byte];
  AddTransactionFails := fun _ _ => false
|}.

(** An entry is the list of the spent flags of its outputs. *)
Definition ex_IsOutputSpent (e : list bool) (i : Z) : bool :=
  default true (e !! Z.to_nat i).

#[global] Instance ex_blockchain : Blockchain := {|
  UtxoEntry := list bool;
  KeyViewpoint := unit;
  IsOutputSpent := ex_IsOutputSpent;
  IsFullySpent := forallb id;
  SpendOutput := fun e i => <[Z.to_nat i := true]> e;
  AddTxOuts := fun v tx _ =>
    <[txHash tx := Some (replicate (length (txOut (MsgTx_of tx))) false)]> v;
  CalcBlockSubsidy := fun _ => 50;
  MaxSigOpsPerBlock := 20000;
  CountSigOps := fun _ => 0;
  CountP2SHSigOps := fun _ _ _ => Some 0;
  IsCoinBase := fun _ => false;
  IsFinalizedTransaction := fun _ _ _ => true;
  CheckTransactionInputs := fun _ _ _ => true;
  CheckTransactionOutputs := fun _ _ => true;
  ValidateTransactionScripts := fun _ _ _ => true;
  BuildMerkleRoot := fun txs => foldr (fun t acc => (txHash t + acc)%N) 0%N txs
|}.

(** 1.0 and 2.0 as binary64 numbers, and the priority threshold
    57600000.0. *)
Definition f1 : spec_float := S754_finite false 4503599627370496 (-52).
Definition f2 : spec_float := S754_finite false 4503599627370496 (-51).
Definition ex_MinHighPriority : spec_float :=
  S754_finite false 7730941132800000 (-27).

#[global] Instance ex_mining : Mining := {|
  CalcPriority := fun _ _ _ => f1;
  MinHighPriority := ex_MinHighPriority
|}.

#[global] Instance ex_scriptdata : ScriptData := {|
  AddDataScript := fun d => Some ("007"%byte :: d)
|}.

#[global] Instance ex_maprange : MapRange := {|
  range_deps := map_to_list;
  range_deps_perm := fun m => reflexivity _
|}.

(** The chain: a tip at height 99 whose median time is 5 s, and one
    confirmed transaction, with hash 7, that has two unspent outputs. *)
Definition ex_best : BestState := mkBestState 1%N 99 (5 * Second)%Z.

Definition ex_chain_utxos : UtxoViewpoint := {[ 7%N := Some [false; false] ]}.

Definition ex_FetchUtxoView (tx : Tx) : option UtxoViewpoint :=
  Some (filter (fun kv => kv.1 ∈ map (fun i => opHash (PreviousOutPoint i))
                                      (txIn (MsgTx_of tx)))
               ex_chain_utxos).

Definition ex_chain : Chain :=
  mkChain _ ex_best ex_FetchUtxoView tt (Some 486604799%Z) (fun _ => true).

(** A transaction with the given hash (the example hash of a message is
    its lock time) that spends the given outputs and has one output with
    the script [pk]. *)
Definition ex_tx (h : Hash) (spends : list (Hash * Z)) (pk : Script) : Tx :=
  mkTx (mkMsgTx 1
          (map (fun '(o, i) => mkTxIn (mkOutPoint o i) [] MaxTxInSequenceNum)
               spends)
          [mkTxOut 10 pk] (Z.of_N h)).

(** The clock reads 10.5 s at every call. *)
Definition ex_clock : MedianTimeSource :=
  mkTimeSource (fun _ => 10 * Second + 500000000)%Z.

Definition ex_policy : Policy := mkPolicy 0 750000 0 1000.

Definition ex_generator (pol : Policy) (pool : list TxDesc) : BlkTmplGenerator :=
  mkGen _ pol
    (mkTxSource pool
       (fun h => bool_decide (h ∈ map (fun d => txHash (Tx_of d)) pool)))
    ex_chain ex_clock.

(** Two candidates: a plain one with priority 2.0 and a high fee, and an
    admin one with priority 1.0 and a low fee. *)
Definition ex_plain : txPrioItem :=
  PrioItem.mk (ex_tx 30%N [(7%N, 0)] ["081"%byte]) 1000 f2 5000 false None.
Definition ex_admin : txPrioItem :=
  PrioItem.mk (ex_tx 31%N [(7%N, 1)] ["187"%byte]) 1 f1 10 true None.
Definition ex_store : itemStore := [ex_plain; ex_admin].

(** A transaction whose first output does not parse and whose second
    output is an admin script. *)
Definition ex_bad_then_admin : MsgTx :=
  mkMsgTx 1 [] [mkTxOut 0 ["001"%byte]; mkTxOut 0 ["187"%byte]] 0.

(** A pool of one transaction of 61 bytes that spends a confirmed
    output, the coinbase the example generator creates at height 100 (69
    bytes; with the header overhead of 190 bytes the loop starts at 259
    bytes), and two policies whose maximum block size is what this
    transaction fills exactly, and one byte more. *)
Definition ex_tx20 : Tx := ex_tx 20%N [(7%N, 0)] ["081"%byte].
Definition ex_pool_one : list TxDesc := [mkTxDesc ex_tx20 100].
Definition ex_coinbase : Tx :=
  mkTx (mkMsgTx 1
          [mkTxIn (mkOutPoint 0%N MaxPrevOutIndex)
                  ("007"%byte :: coinbaseFlags) MaxTxInSequenceNum]
          [mkTxOut 50 [OP_TRUE]] 100).
Definition ex_policy_320 : Policy := mkPolicy 0 320 0 0.
Definition ex_policy_321 : Policy := mkPolicy 0 321 0 0.
(** A policy whose maximum block size is below the size of the header
    and the coinbase. *)
Definition ex_policy_100 : Policy := mkPolicy 0 100 0 0.

(** A pool of a parent and its child, under a policy without a priority
    area and without a fee threshold, and the template the generator
    returns for it: the coinbase, the parent, the child. *)
Definition ex_tx21 : Tx := ex_tx 21%N [(20%N, 0)] ["081"%byte].
Definition ex_pool_chain : list TxDesc :=
  [mkTxDesc ex_tx21 40; mkTxDesc ex_tx20 100].
Definition ex_policy_fee : Policy := mkPolicy 0 750000 0 0.
Definition ex_gen_chain : BlkTmplGenerator :=
  ex_generator ex_policy_fee ex_pool_chain.

(** The chain view the example chain returns for the child. *)
Definition ex_view21 : UtxoViewpoint :=
  default ∅ (ex_FetchUtxoView ex_tx21).


Definition ex_template_chain : BlockTemplate :=
  Eval vm_compute in
    match NewBlockTemplate 5 ex_gen_chain None tt with
    | Ok t => t
    | _ => mkTemplate (mkMsgBlock (mkBlockHeader 0 0%N 0%N 0 0 0 0 None) [])
                      [] [] 0 false
    end.




End Example.

(** * Specification

    The definitions the statements below are written with. *)

Section Specification.
Context `{Txscript} `{Wire} `{Blockchain} `{!Mining} `{ScriptData} `{MapRange}.

(** The size the finalizer records, from the size the loop left. *)
Definition recorded_size (loopSize : Z) (n : nat) (value : Z) (pk : Script)
  : Z :=
  let blockSize :=
    Int.subU32 loopSize
      (Int.subU32 MaxVarIntPayload
         (Int.wrapU32 (VarIntSerializeSize (Z.of_nat n)))) in
  if (value =? 0)%Z
  then Int.subU32 blockSize
         (Int.wrapU32 (Z.of_nat (length pk) - Z.of_nat (length [OP_RETURN])))
  else blockSize.

(** The fee list is the placeholder of the coinbase followed by the fees
    of the added transactions, [totalFees] is their sum, and the coinbase
    stays at the head of the block. *)
Definition fees_inv (coinbaseTx : Tx) (s : asmState) : Prop :=
  blockTxns s !! 0 = Some coinbaseTx ∧
  ∃ rest, txFees s = (-1)%Z :: rest ∧ totalFees s = Int.sum64 rest.

(** The running block size the loop keeps: the sizes of the added
    transactions on top of the initial size. *)
Definition sizes_sum (l : list MsgTx) : Z :=
  foldr (fun m acc => (Int.wrapU32 (SerializeSize m) + acc)%Z) 0%Z l.

Definition added_msgs (s : asmState) : list MsgTx :=
  map MsgTx_of (drop 1 (blockTxns s)).

(** The running size is the initial size plus the sizes of the added
    transactions, without wrap-around, and after each addition it was
    strictly below the maximum block size of the policy. *)
Definition size_inv (pol : Policy) (initial : Z) (s : asmState) : Prop :=
  blockTxns s ≠ [] ∧
  Int.inU32 (blockSize s) ∧
  blockSize s = (initial + sizes_sum (added_msgs s))%Z ∧
  ∀ k, 1 ≤ k ≤ length (added_msgs s) ->
       (initial + sizes_sum (take k (added_msgs s)) < BlockMaxSize pol)%Z.

(** *** Candidates, dependencies and the trace *)

Definition item_hash (it : txPrioItem) : Hash := txHash (PrioItem.tx it).

(** The hashes a candidate still waits for. *)
Definition deps_of (it : txPrioItem) : gset Hash :=
  default ∅ (PrioItem.dependsOn it).

(** The candidates that were pushed by the builder or by the promotion of
    dependents, in the order of the pushes. *)
Definition enqueued (tr : list Event) : list ptr :=
  omap (fun e => match e with
                 | Pushed ByBuilder p | Pushed ByPromotion p => Some p
                 | _ => None
                 end) tr.

Definition pushed_by (k : PushKind) (tr : list Event) : list ptr :=
  omap (fun e => match e with
                 | Pushed k' p => if decide (k' = k) then Some p else None
                 | _ => None
                 end) tr.

(** The candidates the loop is done with: skipped or added. *)
Definition finished (tr : list Event) : list ptr :=
  omap (fun e => match e with
                 | Skipped p | Added p => Some p
                 | _ => None
                 end) tr.

Definition added (tr : list Event) : list ptr :=
  omap (fun e => match e with Added p => Some p | _ => None end) tr.

(** The hashes of the source pool. *)
Definition pool_hashes (pool : list TxDesc) : list Hash :=
  map (fun d => txHash (Tx_of d)) pool.

(** Every entry of the dependency map names a candidate of the store,
    under the hash of that candidate, and the parent is among the hashes
    the candidate waits for, unless a candidate with that hash was
    added. *)
Definition dependers_inv (D : gmap Hash (gmap Hash ptr)) (st : itemStore)
  (tr : list Event) : Prop :=
  ∀ ph m c q, D !! ph = Some m -> m !! c = Some q ->
    ∃ it, st !! q = Some it ∧ item_hash it = c ∧
          (ph ∈ deps_of it ∨
           ∃ r itr, r ∈ added tr ∧ st !! r = Some itr ∧ item_hash itr = ph).

(** [st'] holds the candidates of [st], with the same transactions, each
    waiting for at least the hashes it waited for in [st]. *)
Definition store_grows (st st' : itemStore) : Prop :=
  ∀ q it, st !! q = Some it ->
    ∃ it', st' !! q = Some it' ∧ PrioItem.tx it' = PrioItem.tx it ∧
           deps_of it ⊆ deps_of it'.

(** The builder recorded every input of a candidate that the chain view
    does not provide, for the candidates none of whose inputs is missing
    from both the chain view and the source pool. *)
Definition complete_inv (g : BlkTmplGenerator) (st : itemStore) : Prop :=
  ∀ q it utxos,
    st !! q = Some it ->
    FetchUtxoView (chain g) (PrioItem.tx it) = Some utxos ->
    (∀ i, i ∈ txIn (MsgTx_of (PrioItem.tx it)) ->
          input_unavailable utxos i = true ->
          HaveTransaction (txSource g) (opHash (PreviousOutPoint i)) = true) ->
    ∀ i, i ∈ txIn (MsgTx_of (PrioItem.tx it)) ->
         input_unavailable utxos i = true ->
         opHash (PreviousOutPoint i) ∈ deps_of it.

(** What the builder maintains while it walks the source pool; [rest] is
    the part of the pool it has not looked at. *)
Definition builder_inv (g : BlkTmplGenerator) (rest : list TxDesc)
  (b : builderState) : Prop :=
  b_trace b = map (Pushed ByBuilder) (enqueued (b_trace b)) ∧
  NoDup (enqueued (b_trace b)) ∧
  (∀ q, q ∈ enqueued (b_trace b) -> q < length (b_store b)) ∧
  enqueued (b_trace b) ≡ₚ items (b_priorityQueue b) ∧
  (∀ q it, b_store b !! q = Some it -> q ∈ enqueued (b_trace b) ->
           PrioItem.dependsOn it = None) ∧
  dependers_inv (b_dependers b) (b_store b) (b_trace b) ∧
  complete_inv g (b_store b) ∧
  length (b_store b) + length rest ≤ length (MiningDescs (txSource g)) ∧
  (NoDup (pool_hashes (MiningDescs (txSource g))) ->
   NoDup (map item_hash (b_store b) ++ pool_hashes rest)).

(** The store after the loop over the dependents. *)
Definition delete_all (parent : Hash) (l : list ptr) (st : itemStore)
  : itemStore :=
  foldl (fun st q => alter (delete_dependsOn parent) q st) st l.

(** The bookkeeping of the queue: every candidate is enqueued at most
    once, the enqueued candidates are those in the queue and those the loop
    is done with, a candidate that still waits for a parent was never
    enqueued, the transition to the fee order pushed back at most one
    candidate, and the candidates of the store have different hashes. *)
Definition queue_inv (D : gmap Hash (gmap Hash ptr)) (s : asmState) : Prop :=
  NoDup (enqueued (trace s)) ∧
  (∀ q, q ∈ enqueued (trace s) -> q < length (store s)) ∧
  enqueued (trace s) ≡ₚ items (priorityQueue s) ++ finished (trace s) ∧
  (∀ q it, store s !! q = Some it -> deps_of it ≠ ∅ ->
           q ∉ enqueued (trace s)) ∧
  length (pushed_by ByTransition (trace s)) ≤ 1 ∧
  (sortedByFee s = false -> pushed_by ByTransition (trace s) = []) ∧
  dependers_inv D (store s) (trace s) ∧
  NoDup (map item_hash (store s)).

(** What is left to do: twice the candidates the loop is not done with,
    and one for the transition that has not happened. *)
Definition measure (s : asmState) : nat :=
  2 * (length (store s) - length (finished (trace s)))
  + (1 - length (pushed_by ByTransition (trace s))).

(** The order of the block: [st0] is the store the builder left.  Every
    hash a candidate waited for then is still waited for or is the hash of
    a transaction added to the block; the candidates in the queue wait for
    nothing; and each transaction of the block after the coinbase comes
    from a candidate all of whose parents stand before it in the block. *)
Definition order_inv (st0 : itemStore) (s : asmState) : Prop :=
  blockTxns s ≠ [] ∧
  length (store s) = length st0 ∧
  (∀ q it0, st0 !! q = Some it0 ->
     ∃ it, store s !! q = Some it ∧ PrioItem.tx it = PrioItem.tx it0 ∧
           ∀ ph, ph ∈ deps_of it0 ->
                 ph ∈ deps_of it ∨
                 ∃ j P, 0 < j ∧ blockTxns s !! j = Some P ∧ txHash P = ph) ∧
  (∀ q, q ∈ items (priorityQueue s) ->
        ∃ it, store s !! q = Some it ∧ deps_of it = ∅) ∧
  (∀ k T, blockTxns s !! S k = Some T ->
     ∃ q it0, st0 !! q = Some it0 ∧ PrioItem.tx it0 = T ∧
              ∀ ph, ph ∈ deps_of it0 ->
                    ∃ j P, 0 < j < S k ∧ blockTxns s !! j = Some P ∧
                           txHash P = ph).

End Specification.

(** * Properties *)

(** ** Machine integers *)

Module IntFacts.
Import Int.
Local Open Scope Z_scope.

Lemma wrap64_range z : in64 (wrap64 z).
Proof.
  unfold in64, wrap64.
  pose proof (Z.mod_pos_bound (z + 2 ^ 63) (2 ^ 64) ltac:(lia)). lia.
Qed.

Lemma wrap64_id z : in64 z -> wrap64 z = z.
Proof.
  unfold in64, wrap64. intros Hz.
  rewrite Z.mod_small by lia. lia.
Qed.

Lemma wrap64_wrap_add_l a b : wrap64 (wrap64 a + b) = wrap64 (a + b).
Proof.
  unfold wrap64. f_equal.
  replace ((a + 2 ^ 63) mod 2 ^ 64 - 2 ^ 63 + b + 2 ^ 63)
    with ((a + 2 ^ 63) mod 2 ^ 64 + b) by lia.
  rewrite Zplus_mod_idemp_l. f_equal. lia.
Qed.

Lemma wrap64_wrap_add_r a b : wrap64 (a + wrap64 b) = wrap64 (a + b).
Proof. rewrite Z.add_comm, wrap64_wrap_add_l. f_equal. lia. Qed.

Lemma wrap64_wrap z : wrap64 (wrap64 z) = wrap64 z.
Proof. apply wrap64_id, wrap64_range. Qed.

Lemma wrap64_0 : wrap64 0 = 0.
Proof. reflexivity. Qed.

Lemma foldl_add64 (l : list Z) a :
  foldl add64 (wrap64 a) l = wrap64 (a + foldr Z.add 0 l).
Proof.
  revert a. induction l as [|x l IH]; intros a; simpl.
  - f_equal. lia.
  - unfold add64 at 2. rewrite wrap64_wrap_add_l, IH. f_equal. lia.
Qed.

Lemma wrap64_congr a b k : a = b + k * 2 ^ 64 -> wrap64 a = wrap64 b.
Proof.
  intros ->. unfold wrap64. f_equal.
  replace (b + k * 2 ^ 64 + 2 ^ 63) with (b + 2 ^ 63 + k * 2 ^ 64) by lia.
  by rewrite Z_mod_plus_full.
Qed.

Lemma wrap64_decomp z : ∃ k, wrap64 z = z + k * 2 ^ 64.
Proof.
  exists (- ((z + 2 ^ 63) `div` 2 ^ 64)). unfold wrap64.
  rewrite (Z.mod_eq (z + 2 ^ 63) (2 ^ 64)) by lia. lia.
Qed.

Lemma sum64_spec (l : list Z) : sum64 l = wrap64 (foldr Z.add 0 l).
Proof.
  unfold sum64. change 0 with (wrap64 0) at 1. by rewrite foldl_add64.
Qed.

(** Without overflow the sum is the sum of the integers. *)
Lemma sum64_exact (l : list Z) :
  in64 (foldr Z.add 0 l) -> sum64 l = foldr Z.add 0 l.
Proof. intros Hl. rewrite sum64_spec. by apply wrap64_id. Qed.

Lemma sum64_snoc l x : sum64 (l ++ [x]) = add64 (sum64 l) x.
Proof. unfold sum64. by rewrite foldl_app. Qed.

(** The entry [-total] settles a list whose other entries add up to
    [total]. *)
Lemma sum64_settled (rest : list Z) :
  sum64 (neg64 (sum64 rest) :: rest) = 0.
Proof.
  rewrite (sum64_spec (_ :: _)). rewrite sum64_spec.
  cbn [foldr]. unfold neg64.
  set (s := foldr Z.add 0 rest).
  destruct (wrap64_decomp s) as [k Hk].
  destruct (wrap64_decomp (- wrap64 s)) as [k' Hk'].
  transitivity (wrap64 0); [|reflexivity].
  apply (wrap64_congr _ _ (k' - k)). lia.
Qed.

Lemma wrapU32_range z : inU32 (wrapU32 z).
Proof. unfold inU32, wrapU32. apply Z.mod_pos_bound. lia. Qed.

Lemma wrapU32_id z : inU32 z -> wrapU32 z = z.
Proof. unfold inU32, wrapU32. intros. by apply Z.mod_small. Qed.

End IntFacts.

(** ** The two compare functions *)

Section Comparators.

(** Resolving the indices gives the comparison of the two candidates. *)
Lemma txPQByPriority_items st its i j a b :
  item_at st its i = Some a -> item_at st its j = Some b ->
  txPQByPriority st its i j = Some (lessByPriority a b).
Proof.
  intros Ha Hb. unfold txPQByPriority, lessByPriority.
  rewrite Ha. simpl. destruct (PrioItem.isAdmin a); [done|].
  rewrite Hb. simpl. by destruct (SFeqb _ _).
Qed.

Lemma txPQByFee_items st its i j a b :
  item_at st its i = Some a -> item_at st its j = Some b ->
  txPQByFee st its i j = Some (lessByFee a b).
Proof.
  intros Ha Hb. unfold txPQByFee, lessByFee.
  rewrite Ha. simpl. destruct (PrioItem.isAdmin a); [done|].
  rewrite Hb. simpl. by destruct (_ =? _)%Z.
Qed.

(** An admin candidate sorts before every candidate, under both
    functions. *)
Lemma admin_sorts_first a b :
  PrioItem.isAdmin a = true ->
  lessByPriority a b = true ∧ lessByFee a b = true.
Proof. intros Ha. unfold lessByPriority, lessByFee. by rewrite Ha. Qed.

(** Among candidates without the admin flag the two functions are
    asymmetric: they compare two keys lexicographically, with the strict
    IEEE order on the priorities. *)
Lemma SFcompare_antisym a b c :
  SFcompare a b = Some c -> SFcompare b a = Some (CompOpp c).
Proof.
  destruct a as [sa|sa| |sa ma ea], b as [sb|sb| |sb mb eb]; simpl;
    try (intros [= <-]; by repeat case_match).
  intros [= <-]. f_equal.
  destruct sa, sb; try done.
  - rewrite (Z.compare_antisym ea eb).
    destruct (ea ?= eb)%Z eqn:He; simpl; try done.
    rewrite CompOpp_involutive. apply (Pos.compare_cont_antisym mb ma Eq).
  - rewrite (Z.compare_antisym ea eb).
    destruct (ea ?= eb)%Z eqn:He; simpl; try done.
    symmetry. apply (Pos.compare_cont_antisym ma mb Eq).
Qed.

Lemma SFltb_asym a b : SFltb a b = true -> SFltb b a = false.
Proof.
  unfold SFltb. destruct (SFcompare a b) as [c|] eqn:Hc; [|done].
  rewrite (SFcompare_antisym _ _ _ Hc). by destruct c.
Qed.

Lemma SFeqb_sym a b : SFeqb a b = SFeqb b a.
Proof.
  unfold SFeqb. destruct (SFcompare a b) as [c|] eqn:Hc.
  - rewrite (SFcompare_antisym _ _ _ Hc). by destruct c.
  - destruct (SFcompare b a) as [c|] eqn:Hc'; [|done].
    apply SFcompare_antisym in Hc'. congruence.
Qed.

Lemma lessByPriority_plain_asym a b :
  PrioItem.isAdmin a = false -> PrioItem.isAdmin b = false ->
  lessByPriority a b = true -> lessByPriority b a = false.
Proof.
  unfold lessByPriority. intros -> ->.
  rewrite (SFeqb_sym (PrioItem.priority b)).
  destruct (SFeqb _ _).
  - intros Hlt%Z.ltb_lt. apply Z.ltb_ge. lia.
  - apply SFltb_asym.
Qed.

Lemma lessByFee_plain_asym a b :
  PrioItem.isAdmin a = false -> PrioItem.isAdmin b = false ->
  lessByFee a b = true -> lessByFee b a = false.
Proof.
  unfold lessByFee. intros -> ->.
  rewrite (Z.eqb_sym (PrioItem.feePerKB b)).
  destruct (_ =? _)%Z.
  - apply SFltb_asym.
  - intros Hlt%Z.ltb_lt. apply Z.ltb_ge. lia.
Qed.

(** Two admin candidates sort before each other. *)
Lemma admins_sort_before_each_other a b :
  PrioItem.isAdmin a = true -> PrioItem.isAdmin b = true ->
  lessByPriority a b = true ∧ lessByPriority b a = true ∧
  lessByFee a b = true ∧ lessByFee b a = true.
Proof.
  intros Ha Hb.
  destruct (admin_sorts_first a b Ha), (admin_sorts_first b a Hb). done.
Qed.

End Comparators.

(** C3.  The compare functions look at the admin flag of the first
    candidate only.  For the plain candidate [ex_plain] (priority 2.0, fee
    per kilobyte 5000) and the admin candidate [ex_admin] (priority 1.0,
    fee per kilobyte 10) both [txPQByPriority] and [txPQByFee] answer
    true in the two directions, so neither is antisymmetric, and a queue in
    which the admin candidate was pushed first pops the plain one first. *)
Theorem C3_less_holds_in_both_directions :
  PrioItem.isAdmin Example.ex_admin = true ∧
  PrioItem.isAdmin Example.ex_plain = false ∧
  txPQByPriority Example.ex_store [0; 1] 1 0 = Some true ∧
  txPQByPriority Example.ex_store [0; 1] 0 1 = Some true ∧
  txPQByFee Example.ex_store [0; 1] 1 0 = Some true ∧
  txPQByFee Example.ex_store [0; 1] 0 1 = Some true ∧
  fst <$> heap_Pop Example.ex_store
            (heap_Push Example.ex_store
               (heap_Push Example.ex_store
                  (newTxPriorityQueue Example.ex_store false) 1) 0)
    = Some 0 ∧
  fst <$> heap_Pop Example.ex_store
            (heap_Push Example.ex_store
               (heap_Push Example.ex_store
                  (newTxPriorityQueue Example.ex_store true) 1) 0)
    = Some 0.
Proof. vm_compute. repeat split; reflexivity. Qed.

(** ** isAdmin *)

Section IsAdminFacts.
Context `{Txscript}.

(** When [isAdmin] answers true, some output has an admin script. *)
Lemma isAdmin_sound msgTx : isAdmin msgTx = true -> has_admin_output msgTx.
Proof.
  unfold isAdmin, has_admin_output.
  induction (txOut msgTx) as [|o outs IH]; simpl; [done|].
  destruct (ParseScript (PkScript o)) as [pops|] eqn:Hp; [|done].
  destruct (decide (TypeOfScript pops = ProvaAdminTy)) as [Hty|Hty].
  - intros _. exists o, pops. split; [left|done].
  - intros Hrest. destruct (IH Hrest) as (o' & pops' & Hin & Hp' & Hty').
    exists o', pops'. split; [by right|done].
Qed.

(** An output that does not parse ends the search. *)
Lemma isAdmin_stops_at_parse_error v o outs l :
  ParseScript (PkScript o) = None ->
  isAdmin (mkMsgTx v [] (o :: outs) l) = false.
Proof. intros Hp. unfold isAdmin. simpl. by rewrite Hp. Qed.

End IsAdminFacts.

(** C7.  For the transaction [ex_bad_then_admin], whose first output
    script does not parse and whose second output script is of the admin
    class, [isAdmin] answers false although an output has an admin
    script. *)
Theorem C7_isAdmin_false_with_admin_output :
  isAdmin Example.ex_bad_then_admin = false ∧
  has_admin_output Example.ex_bad_then_admin.
Proof.
  split; [reflexivity|].
  exists (mkTxOut 0 ["187"%byte]), ["187"%byte].
  split; [|split; reflexivity].
  unfold Example.ex_bad_then_admin. simpl. set_solver.
Qed.

(** ** The header timestamp *)

Section TimeFacts.
Local Open Scope Z_scope.

Lemma medianAdjustedTime_max chainState now :
  medianAdjustedTime chainState now
  = Z.max now (MedianTime chainState + Second).
Proof.
  unfold medianAdjustedTime, minimumMedianTime.
  destruct (Z.ltb_spec now (MedianTime chainState + Second)); lia.
Qed.

(** The timestamp is at least one second after the median time. *)
Lemma medianAdjustedTime_after_median chainState now :
  MedianTime chainState + Second <= medianAdjustedTime chainState now.
Proof. rewrite medianAdjustedTime_max. lia. Qed.

(** On a reading that is a whole number of seconds the truncation changes
    nothing. *)
Lemma truncate_whole_second t : t mod Second = 0 -> truncate_to_second t = t.
Proof. unfold truncate_to_second. lia. Qed.

End TimeFacts.

(** C5.  With a time source that reads 10.5 s and a median time of 5 s the
    generated header carries the timestamp 10.5 s, where the maximum of the
    reading truncated to a second and the median time plus one second is
    10 s: [medianAdjustedTime] compares and returns the reading as it
    is. *)
Theorem C5_timestamp_keeps_subsecond_reading :
  ∃ t, NewBlockTemplate 0 (Example.ex_generator Example.ex_policy []) None tt
       = Ok t ∧
       Timestamp (Header (Block t)) = 10500000000%Z ∧
       Z.max (truncate_to_second (AdjustedTime Example.ex_clock 0))
             (MedianTime Example.ex_best + Second) = 10000000000%Z.
Proof. eexists. split; [vm_compute; reflexivity|]. split; reflexivity. Qed.

(** ** UpdateBlockTime *)

Section Refresher.
Context `{Txscript} `{Wire} `{Blockchain} `{!Mining} `{ScriptData} `{MapRange}.

Lemma Sign_frame (h : BlockHeader) (key : PrivateKey) :
  let h' := fst (Sign h key) in
  Version h' = Version h ∧ PrevBlock h' = PrevBlock h ∧
  MerkleRoot h' = MerkleRoot h ∧ Timestamp h' = Timestamp h ∧
  Bits h' = Bits h ∧ Height h' = Height h ∧ Size h' = Size h.
Proof. unfold Sign. destruct (SignHeader key h); simpl; repeat split. Qed.

(** C8.  [UpdateBlockTime] leaves the transactions, the Merkle root, the
    recorded size, the version, the previous hash, the bits and the height
    of the block as they were, for every block and key. *)
Theorem C8_UpdateBlockTime_frame (g : BlkTmplGenerator) (clock : nat)
  (msgBlock : MsgBlock) (validateKey : PrivateKey) :
  let b' := fst (UpdateBlockTime g clock msgBlock validateKey) in
  Transactions b' = Transactions msgBlock ∧
  MerkleRoot (Header b') = MerkleRoot (Header msgBlock) ∧
  Size (Header b') = Size (Header msgBlock) ∧
  Version (Header b') = Version (Header msgBlock) ∧
  PrevBlock (Header b') = PrevBlock (Header msgBlock) ∧
  Bits (Header b') = Bits (Header msgBlock) ∧
  Height (Header b') = Height (Header msgBlock).
Proof.
  unfold UpdateBlockTime. cbn [fst Transactions Header].
  match goal with |- context [Sign ?h ?k] =>
    destruct (Sign_frame h k) as (Hv & Hp & Hm & _ & Hb & Hh & Hs) end.
  cbn [Version PrevBlock MerkleRoot Bits Height Size] in *.
  by rewrite Hv, Hp, Hm, Hb, Hh, Hs.
Qed.

(** C10.  [UpdateBlockTime] returns nil for every block and key, also when
    the signing of the header fails. *)
Theorem C10_UpdateBlockTime_returns_nil (g : BlkTmplGenerator) (clock : nat)
  (msgBlock : MsgBlock) (validateKey : PrivateKey) :
  snd (UpdateBlockTime g clock msgBlock validateKey) = None.
Proof. reflexivity. Qed.

(** The timestamp it writes, and the case of a failed signature: the
    header keeps its old signature and the call still reports no error. *)
Lemma UpdateBlockTime_timestamp (g : BlkTmplGenerator) (clock : nat)
  (msgBlock : MsgBlock) (validateKey : PrivateKey) :
  Timestamp (Header (fst (UpdateBlockTime g clock msgBlock validateKey)))
  = medianAdjustedTime (BestSnapshot (chain g))
      (AdjustedTime (timeSource g) clock).
Proof.
  unfold UpdateBlockTime. cbn [fst Header].
  match goal with |- context [Sign ?h ?k] =>
    destruct (Sign_frame h k) as (_ & _ & _ & Ht & _) end.
  by rewrite Ht.
Qed.

End Refresher.

Section HeapFacts.
Implicit Types (pq : txPriorityQueue) (st : itemStore).

Lemma insert_Permutation {A} (l : list A) i a b :
  l !! i = Some a -> a :: <[i := b]> l ≡ₚ b :: l.
Proof.
  revert i. induction l as [|x l IH]; intros [|i] Hi; simplify_eq/=.
  - apply Permutation_swap.
  - rewrite (Permutation_swap x a), (IH _ Hi). apply Permutation_swap.
Qed.

Lemma Swap_lessFunc pq i j : lessFunc (Swap pq i j) = lessFunc pq.
Proof. unfold Swap. by repeat case_match. Qed.

Lemma Swap_items pq i j : items (Swap pq i j) ≡ₚ items pq.
Proof.
  unfold Swap.
  destruct (items pq !! i) as [a|] eqn:Hi; [|done].
  destruct (items pq !! j) as [b|] eqn:Hj; [|done].
  simpl. destruct (decide (i = j)) as [->|Hne].
  - simplify_eq. rewrite list_insert_insert_eq. by rewrite list_insert_id.
  - apply (Permutation_cons_inv (a:=a)).
    rewrite insert_Permutation; last by rewrite list_lookup_insert_ne.
    apply insert_Permutation. done.
Qed.

Lemma heap_up_lessFunc st fuel pq j :
  lessFunc (heap_up st fuel pq j) = lessFunc pq.
Proof.
  revert pq j. induction fuel as [|fuel IH]; intros pq j; simpl; [done|].
  repeat case_match; try done. by rewrite IH, Swap_lessFunc.
Qed.

Lemma heap_up_items st fuel pq j : items (heap_up st fuel pq j) ≡ₚ items pq.
Proof.
  revert pq j. induction fuel as [|fuel IH]; intros pq j; simpl; [done|].
  repeat case_match; try done. by rewrite IH, Swap_items.
Qed.

Lemma heap_down_lessFunc st fuel pq i n :
  lessFunc (heap_down st fuel pq i n) = lessFunc pq.
Proof.
  revert pq i. induction fuel as [|fuel IH]; intros pq i; simpl; [done|].
  repeat case_match; try done; by rewrite IH, Swap_lessFunc.
Qed.

Lemma heap_down_items st fuel pq i n :
  items (heap_down st fuel pq i n) ≡ₚ items pq.
Proof.
  revert pq i. induction fuel as [|fuel IH]; intros pq i; simpl; [done|].
  repeat case_match; try done; by rewrite IH, Swap_items.
Qed.

Lemma heap_init_from_lessFunc st k pq n :
  lessFunc (heap_init_from st k pq n) = lessFunc pq.
Proof.
  revert pq. induction k as [|k IH]; intros pq; simpl; [done|].
  by rewrite IH, heap_down_lessFunc.
Qed.

Lemma heap_init_from_items st k pq n :
  items (heap_init_from st k pq n) ≡ₚ items pq.
Proof.
  revert pq. induction k as [|k IH]; intros pq; simpl; [done|].
  by rewrite IH, heap_down_items.
Qed.

Lemma SetLessFunc_items st pq f : items (SetLessFunc st pq f) ≡ₚ items pq.
Proof. unfold SetLessFunc, heap_Init. by rewrite heap_init_from_items. Qed.

Lemma SetLessFunc_lessFunc st pq f : lessFunc (SetLessFunc st pq f) = f.
Proof. unfold SetLessFunc, heap_Init. by rewrite heap_init_from_lessFunc. Qed.

Lemma newTxPriorityQueue_items st b : items (newTxPriorityQueue st b) = [].
Proof.
  apply Permutation_nil_r. unfold newTxPriorityQueue.
  destruct b; by rewrite SetLessFunc_items.
Qed.

Lemma heap_Push_items st pq x : items (heap_Push st pq x) ≡ₚ x :: items pq.
Proof.
  unfold heap_Push. rewrite heap_up_items. simpl.
  by rewrite Permutation_app_comm.
Qed.

Lemma heap_Pop_Some st pq :
  Len pq ≠ 0 -> ∃ p pq1, heap_Pop st pq = Some (p, pq1).
Proof.
  unfold heap_Pop, Len. intros Hlen.
  destruct (length (items pq)) as [|n] eqn:Hn; [done|].
  set (pq1 := heap_down st n (Swap pq 0 n) 0 n).
  assert (length (items pq1) = S n) as Hl.
  { unfold pq1. rewrite heap_down_items, Swap_items. done. }
  destruct (lookup_lt_is_Some_2 (items pq1) n) as [x Hx]; [lia|].
  rewrite Hx. simpl. eauto.
Qed.

Lemma heap_Pop_items st pq p pq1 :
  heap_Pop st pq = Some (p, pq1) -> items pq ≡ₚ p :: items pq1.
Proof.
  unfold heap_Pop, Len.
  destruct (length (items pq)) as [|n] eqn:Hn; [done|].
  set (pq' := heap_down st n (Swap pq 0 n) 0 n).
  assert (items pq' ≡ₚ items pq) as Hperm.
  { unfold pq'. by rewrite heap_down_items, Swap_items. }
  destruct (items pq' !! n) as [x|] eqn:Hx; [|done].
  simpl. intros [= <- <-]. simpl.
  rewrite <- Hperm.
  assert (length (items pq') = S n) as Hl by (by rewrite Hperm).
  rewrite <- (take_drop n (items pq')) at 1.
  rewrite (drop_S _ _ _ Hx). rewrite drop_ge by lia.
  by rewrite Permutation_app_comm.
Qed.

(** The fuel given to [up] and [down] is never used up: with any larger
    amount the result is the same. *)
Lemma heap_up_fuel st fuel fuel' pq j :
  j < fuel -> j < fuel' -> heap_up st fuel pq j = heap_up st fuel' pq j.
Proof.
  revert fuel' pq j. induction fuel as [|fuel IH]; intros fuel' pq j Hj Hj';
    [lia|].
  destruct fuel' as [|fuel']; [lia|]. cbn [heap_up].
  destruct (decide ((j - 1) / 2 = j)) as [|Hne]; [done|].
  destruct (negb (Less st pq j ((j - 1) / 2))); [done|].
  assert ((j - 1) / 2 ≤ j - 1) as Hle
    by (apply Nat.Div0.div_le_upper_bound; lia).
  apply IH; lia.
Qed.

Lemma heap_down_fuel st fuel fuel' pq i n :
  n - i ≤ fuel -> n - i ≤ fuel' ->
  heap_down st fuel pq i n = heap_down st fuel' pq i n.
Proof.
  revert fuel' pq i. induction fuel as [|fuel IH]; intros fuel' pq i Hi Hi'.
  - destruct fuel' as [|fuel']; [done|]. cbn [heap_down].
    rewrite decide_True by lia. done.
  - destruct fuel' as [|fuel']; cbn [heap_down].
    + rewrite decide_True by lia. done.
    + destruct (decide (n ≤ 2 * i + 1)); [done|].
      match goal with |- context [negb (Less st pq ?c i)] =>
        set (child := c);
        assert (i < child) as Hj
          by (unfold child; repeat case_match; lia);
        destruct (negb (Less st pq child i)); [done|] end.
      apply IH; lia.
Qed.

End HeapFacts.

Section LoopFacts.
Context `{Txscript} `{Wire} `{Blockchain} `{!Mining} `{ScriptData} `{MapRange}.

(** The three ways an iteration of the loop can end. *)
Lemma loop_body_cases g h D s s' :
  loop_body g h D s = Some s' ->
  ∃ p pq1 prioItem,
    heap_Pop (store s) (priorityQueue s) = Some (p, pq1) ∧
    store s !! p = Some prioItem ∧
    let tx := PrioItem.tx prioItem in
    let txSize := Int.wrapU32 (SerializeSize (MsgTx_of tx)) in
    ((∃ pq2 sorted tr,
        s' = mkAsm (store s) pq2 (blockUtxos s) (blockTxns s) (blockSize s)
               (blockSigOps s) (totalFees s) (txFees s) (txSigOpCounts s)
               sorted (trace s ++ Popped p :: tr ++ [Skipped p]) ∧
        items pq2 ≡ₚ items pq1 ∧
        (sortedByFee s = true -> sorted = true) ∧
        (tr = [] ∨ tr = [Switched]))
     ∨ (∃ pq2,
        sortedByFee s = false ∧
        s' = mkAsm (store s) pq2 (blockUtxos s) (blockTxns s) (blockSize s)
               (blockSigOps s) (totalFees s) (txFees s) (txSigOpCounts s)
               true
               (trace s ++ [Popped p; Switched; Pushed ByTransition p]) ∧
        items pq2 ≡ₚ p :: items pq1)
     ∨ (∃ pq2 sorted tr numSigOps,
        exceeds_block_size (policy g) (blockSize s)
          (Int.addU32 (blockSize s) txSize) = false ∧
        exceeds_sigops (blockSigOps s) numSigOps = false ∧
        validate_tx g h (blockUtxos s) tx = true ∧
        items pq2 ≡ₚ items pq1 ∧
        (sortedByFee s = true -> sorted = true) ∧
        (tr = [] ∨ tr = [Switched]) ∧
        s' = add_tx g h s pq2 sorted (trace s ++ Popped p :: tr) p prioItem
               txSize numSigOps (D !! txHash tx))).
Proof.
  unfold loop_body. intros Hbody.
  destruct (heap_Pop (store s) (priorityQueue s)) as [[p pq1]|] eqn:Hpop;
    [|done].
  simpl in Hbody.
  destruct (store s !! p) as [prioItem|] eqn:Hitem; [|done].
  simpl in Hbody.
  exists p, pq1, prioItem. split; [done|]. split; [done|].
  cbn zeta.
  set (txSize := Int.wrapU32 (SerializeSize (MsgTx_of (PrioItem.tx prioItem))))
    in *.
  destruct (exceeds_block_size _ _ _) eqn:Hsize.
  { left. exists pq1, (sortedByFee s), []. simplify_eq. unfold skip_tx. simpl.
    rewrite <- app_assoc. split; [done|]. split; [done|]. split; [done|].
    by left. }
  destruct (exceeds_sigops (blockSigOps s) (CountSigOps _)) eqn:Hsig.
  { left. exists pq1, (sortedByFee s), []. simplify_eq. unfold skip_tx. simpl.
    rewrite <- app_assoc. split; [done|]. split; [done|]. split; [done|].
    by left. }
  destruct (CountP2SHSigOps _ _ _) as [n2|] eqn:Hp2sh; cycle 1.
  { left. exists pq1, (sortedByFee s), []. simplify_eq. unfold skip_tx. simpl.
    rewrite <- app_assoc. split; [done|]. split; [done|]. split; [done|].
    by left. }
  destruct (exceeds_sigops (blockSigOps s) (Int.add64 _ _)) eqn:Hsig2.
  { left. exists pq1, (sortedByFee s), []. simplify_eq. unfold skip_tx. simpl.
    rewrite <- app_assoc. split; [done|]. split; [done|]. split; [done|].
    by left. }
  match type of Hbody with
  | (if ?c then _ else _) = _ => destruct c eqn:Hfree
  end.
  { left. exists pq1, (sortedByFee s), []. simplify_eq. unfold skip_tx. simpl.
    rewrite <- app_assoc. split; [done|]. split; [done|]. split; [done|].
    by left. }
  cbn [sortedByFee trace store blockUtxos blockTxns blockSize blockSigOps
       totalFees txFees txSigOpCounts] in Hbody.
  destruct (sortedByFee s) eqn:Hsorted.
  - (* already sorted by fee: no switch *)
    simpl in Hbody.
    destruct (validate_tx _ _ _ _) eqn:Hval; simpl in Hbody; simplify_eq.
    + right; right. exists pq1, true, [], (Int.add64 (CountSigOps (PrioItem.tx prioItem)) n2).
      repeat (split; [done|]). split; [by left|]. done.
    + left. exists pq1, true, []. simpl. rewrite <- app_assoc.
      repeat (split; [done|]). by left.
  - simpl in Hbody.
    match type of Hbody with
    | context [if ?c then SetLessFunc _ _ _ else _] => destruct c eqn:Hswitch
    end; simpl in Hbody.
    + match type of Hbody with
      | (if ?c then _ else _) = _ => destruct c eqn:Hback
      end.
      * right; left. simplify_eq.
        eexists. split; [done|]. split.
        { rewrite <- !app_assoc. done. }
        by rewrite heap_Push_items, SetLessFunc_items.
      * destruct (validate_tx _ _ _ _) eqn:Hval; simpl in Hbody; simplify_eq.
        -- right; right.
           eexists _, true, [Switched], _.
           split; [done|]. split; [exact Hsig2|]. split; [done|].
           split; [apply SetLessFunc_items|]. split; [done|].
           split; [by right|].
           rewrite <- !app_assoc. done.
        -- left. eexists _, true, [Switched]. simpl.
           rewrite <- !app_assoc. simpl.
           split; [done|]. split; [apply SetLessFunc_items|].
           split; [done|]. by right.
    + destruct (validate_tx _ _ _ _) eqn:Hval; simpl in Hbody; simplify_eq.
      * right; right. eexists pq1, false, [], _.
        split; [done|]. split; [exact Hsig2|]. repeat (split; [done|]).
        split; [by left|]. done.
      * left. exists pq1, false, []. simpl. rewrite <- app_assoc.
        repeat (split; [done|]). by left.
Qed.

End LoopFacts.

Section TemplateFacts.
Context `{Txscript} `{Wire} `{Blockchain} `{!Mining} `{ScriptData} `{MapRange}.

(** A property that every iteration preserves holds when the loop ends,
    and the loop ends with an empty queue. *)
Lemma assemble_invariant (P : asmState -> Prop) g h D :
  (∀ s s', P s -> loop_body g h D s = Some s' -> P s') ->
  ∀ fuel s s', P s -> assemble fuel g h D s = Ok s' ->
               P s' ∧ Len (priorityQueue s') = 0.
Proof.
  intros Hstep fuel. induction fuel as [|fuel IH]; intros s s' HP; simpl.
  - destruct (decide _); [|done]. by intros [= <-].
  - destruct (decide _); [by intros [= <-]|].
    destruct (loop_body g h D s) as [s1|] eqn:Hbody; [|done].
    simpl. apply IH. eauto.
Qed.

(** More fuel does not change a result. *)
Lemma assemble_fuel_mono g h D fuel fuel' s s' :
  fuel ≤ fuel' -> assemble fuel g h D s = Ok s' ->
  assemble fuel' g h D s = Ok s'.
Proof.
  revert fuel' s. induction fuel as [|fuel IH]; intros fuel' s Hle; simpl.
  - destruct (decide _) as [Hz|]; [|done]. intros [= <-].
    destruct fuel'; simpl; by rewrite decide_True.
  - destruct fuel' as [|fuel']; [lia|]. simpl.
    destruct (decide _); [done|].
    destruct (loop_body g h D s) as [s1|]; [|done]. simpl.
    apply IH. lia.
Qed.

Lemma add_tx_fields g h s pq sorted tr p prioItem txSize numSigOps deps :
  let r := promote (txHash (PrioItem.tx prioItem))
             (match deps with Some m => range_deps m | None => [] end)
             (store s) pq (tr ++ [Added p]) in
  add_tx g h s pq sorted tr p prioItem txSize numSigOps deps
  = mkAsm r.1.1 r.1.2
      (spendTransaction (blockUtxos s) (PrioItem.tx prioItem) h)
      (blockTxns s ++ [PrioItem.tx prioItem])
      (Int.addU32 (blockSize s) txSize)
      (Int.add64 (blockSigOps s) numSigOps)
      (Int.add64 (totalFees s) (PrioItem.fee prioItem))
      (txFees s ++ [PrioItem.fee prioItem])
      (txSigOpCounts s ++ [numSigOps])
      sorted r.2.
Proof. unfold add_tx. by destruct (promote _ _ _ _ _) as [[??]?]. Qed.

(** The blocks of [NewBlockTemplate]. *)
Lemma NewBlockTemplate_Ok fuel g payToAddress validateKey t :
  NewBlockTemplate fuel g payToAddress validateKey = Ok t ->
  let best := BestSnapshot (chain g) in
  let nextBlockHeight := Int.wrapU32 (bestHeight best + 1) in
  ∃ coinbaseScript coinbaseTx dependers clock s0 s,
    standardCoinbaseScript = Some coinbaseScript ∧
    createCoinbaseTx coinbaseScript nextBlockHeight payToAddress
      = Some coinbaseTx ∧
    start_assembly g nextBlockHeight coinbaseTx = Some (dependers, clock, s0) ∧
    assemble fuel g nextBlockHeight dependers s0 = Ok s ∧
    finish_template g best nextBlockHeight
      (bool_decide (payToAddress ≠ None)) validateKey clock s = Ok t.
Proof.
  unfold NewBlockTemplate. cbn zeta.
  destruct standardCoinbaseScript as [coinbaseScript|]; [|done]. simpl.
  destruct (createCoinbaseTx _ _ _) as [coinbaseTx|] eqn:Hcb; [|done]. simpl.
  destruct (start_assembly _ _ _) as [[[dependers clock] s0]|] eqn:Hstart;
    [|done]. simpl.
  destruct (assemble _ _ _ _ _) as [s| | |] eqn:Hasm; try done. simpl.
  intros Hfin. by exists coinbaseScript, coinbaseTx, dependers, clock, s0, s.
Qed.

Lemma createCoinbaseTx_Some coinbaseScript nextBlockHeight addr cb :
  createCoinbaseTx coinbaseScript nextBlockHeight addr = Some cb ->
  ∃ pkScript,
    match addr with
    | Some a => PayToAddrScript a = Some pkScript
    | None => pkScript = [OP_TRUE]
    end ∧
    MsgTx_of cb =
      mkMsgTx NewMsgTxVersion
        [mkTxIn (mkOutPoint 0%N MaxPrevOutIndex) coinbaseScript
                MaxTxInSequenceNum]
        [mkTxOut (CalcBlockSubsidy nextBlockHeight) pkScript]
        nextBlockHeight.
Proof.
  unfold createCoinbaseTx. destruct addr as [a|]; simpl.
  - destruct (PayToAddrScript a) as [pk|]; [|done]. simpl.
    intros [= <-]. by exists pk.
  - intros [= <-]. by exists [OP_TRUE].
Qed.

Lemma start_assembly_Some g h coinbaseTx D clock s0 :
  start_assembly g h coinbaseTx = Some (D, clock, s0) ->
  ∃ b, mempoolLoop g h
         (mkBuilder [] (newTxPriorityQueue [] (BlockPrioritySize (policy g) =? 0)%Z)
                    ∅ ∅ 0 [])
         (MiningDescs (txSource g)) = Some b ∧
       D = b_dependers b ∧ clock = b_clock b ∧
       s0 = mkAsm (b_store b) (b_priorityQueue b) (b_blockUtxos b)
              [coinbaseTx]
              (Int.addU32 blockHeaderOverhead
                 (Int.wrapU32 (SerializeSize (MsgTx_of coinbaseTx))))
              (CountSigOps coinbaseTx) 0 [(-1)%Z] [CountSigOps coinbaseTx]
              (BlockPrioritySize (policy g) =? 0)%Z (b_trace b).
Proof.
  unfold start_assembly. cbn zeta.
  destruct (mempoolLoop _ _ _ _) as [b|]; [|done]. simpl.
  intros [= <- <- <-]. by exists b.
Qed.

Lemma add_transactions_Err (e : Error) (txns : list Tx) :
  foldl (fun acc tx =>
           b ← acc;
           if AddTransactionFails b (MsgTx_of tx) then Err ErrAddTransaction
           else Ok (mkMsgBlock (Header b) (Transactions b ++ [MsgTx_of tx])))
        (Err e) txns = Err e.
Proof. induction txns as [|tx txns IH]; simpl; [done|exact IH]. Qed.

(** The transactions of the block are those the loop left, in order. *)
Lemma add_transactions_Ok (txns : list Tx) b0 b :
  foldl (fun acc tx =>
           b ← acc;
           if AddTransactionFails b (MsgTx_of tx) then Err ErrAddTransaction
           else Ok (mkMsgBlock (Header b) (Transactions b ++ [MsgTx_of tx])))
        (Ok b0) txns = Ok b ->
  Header b = Header b0 ∧
  Transactions b = Transactions b0 ++ map MsgTx_of txns.
Proof.
  revert b0. induction txns as [|tx txns IH]; intros b0; simpl.
  - intros [= <-]. by rewrite app_nil_r.
  - destruct (AddTransactionFails b0 (MsgTx_of tx)).
    + by rewrite add_transactions_Err.
    + intros Hb. destruct (IH _ Hb) as [Hh Ht]. simpl in *.
      split; [done|]. by rewrite Ht, <- app_assoc.
Qed.

Lemma finish_template_Ok g best h valid key clock s t :
  finish_template g best h valid key clock s = Ok t ->
  ∃ coinbaseTx out0 outs cbMsg,
    blockTxns s !! 0 = Some coinbaseTx ∧
    txOut (MsgTx_of coinbaseTx) = out0 :: outs ∧
    let value := Int.add64 (Value out0) (totalFees s) in
    let pkScript := if (value =? 0)%Z then [OP_RETURN] else PkScript out0 in
    cbMsg = mkMsgTx (TxVersion (MsgTx_of coinbaseTx))
              (txIn (MsgTx_of coinbaseTx)) (mkTxOut value pkScript :: outs)
              (LockTime (MsgTx_of coinbaseTx)) ∧
    Transactions (Block t)
      = map MsgTx_of (<[0 := NewTx cbMsg]> (blockTxns s)) ∧
    Fees t = <[0 := Int.neg64 (totalFees s)]> (txFees s) ∧
    SigOpCounts t = txSigOpCounts s ∧
    TemplateHeight t = h ∧
    ValidPayAddress t = valid ∧
    Timestamp (Header (Block t))
      = medianAdjustedTime best (AdjustedTime (timeSource g) clock) ∧
    Size (Header (Block t))
      = recorded_size (blockSize s) (length (blockTxns s)) value
          (PkScript out0) ∧
    Version (Header (Block t)) = generatedBlockVersion ∧
    CheckConnectBlock (chain g) (Block t) = true.
Proof.
  unfold finish_template. cbn zeta.
  destruct (blockTxns s !! 0) as [coinbaseTx|] eqn:Hcb; [|done]. simpl.
  destruct (txOut (MsgTx_of coinbaseTx)) as [|out0 outs] eqn:Hout; [done|].
  simpl.
  set (value := Int.add64 (Value out0) (totalFees s)).
  intros Hfin.
  exists coinbaseTx, out0, outs. eexists. split; [done|]. split; [done|].
  cbn zeta. fold value. split; [reflexivity|].
  assert (∀ bs pk,
    (cbMsg ← or_panic (set_coinbase_out (MsgTx_of coinbaseTx) value pk);
     let blockTxns := <[0 := NewTx cbMsg]> (blockTxns s) in
     let ts := medianAdjustedTime best (AdjustedTime (timeSource g) clock) in
     reqDifficulty ←
       or_error ErrDifficulty (CalcNextRequiredDifficulty (chain g));
     let header :=
       mkBlockHeader generatedBlockVersion (bestHash best)
         (BuildMerkleRoot blockTxns) ts reqDifficulty
         (Int.wrapU32 h) bs None in
     let header := fst (Sign header key) in
     msgBlock ←
       foldl (fun acc tx =>
                b ← acc;
                if AddTransactionFails b (MsgTx_of tx)
                then Err ErrAddTransaction
                else Ok (mkMsgBlock (Header b)
                                    (Transactions b ++ [MsgTx_of tx])))
             (Ok (mkMsgBlock header [])) blockTxns;
     if negb (CheckConnectBlock (chain g) msgBlock) then Err ErrCheckConnect
     else Ok (mkTemplate msgBlock
                (<[0 := Int.neg64 (totalFees s)]> (txFees s))
                (txSigOpCounts s) h valid)) = Ok t ->
    Transactions (Block t)
      = map MsgTx_of
          (<[0 := NewTx (mkMsgTx (TxVersion (MsgTx_of coinbaseTx))
                           (txIn (MsgTx_of coinbaseTx))
                           (mkTxOut value pk :: outs)
                           (LockTime (MsgTx_of coinbaseTx)))]> (blockTxns s)) ∧
    Fees t = <[0 := Int.neg64 (totalFees s)]> (txFees s) ∧
    SigOpCounts t = txSigOpCounts s ∧
    TemplateHeight t = h ∧
    ValidPayAddress t = valid ∧
    Timestamp (Header (Block t))
      = medianAdjustedTime best (AdjustedTime (timeSource g) clock) ∧
    Size (Header (Block t)) = bs ∧
    Version (Header (Block t)) = generatedBlockVersion ∧
    CheckConnectBlock (chain g) (Block t) = true) as Hrest.
  { intros bs pk. unfold set_coinbase_out. rewrite Hout. simpl.
    destruct (CalcNextRequiredDifficulty (chain g)) as [bits|]; [|done]. simpl.
    match goal with |- context [foldl ?f ?a ?l] =>
      destruct (foldl f a l) as [msgBlock| | |] eqn:Hadd; try done end.
    simpl. destruct (CheckConnectBlock (chain g) msgBlock) eqn:Hcheck; [|done].
    simpl. intros [= <-]. simpl.
    apply add_transactions_Ok in Hadd as [Hh Ht]. simpl in Hh, Ht.
    rewrite Hh, Ht.
    match goal with |- context [Sign ?hd ?k] =>
      destruct (Sign_frame hd k) as (Hv & _ & _ & Hts & _ & _ & Hsz) end.
    rewrite Hv, Hts, Hsz. done. }
  unfold recorded_size.
  destruct (value =? 0)%Z eqn:Hzero; simpl in Hfin.
  - apply Hrest in Hfin. exact Hfin.
  - apply Hrest in Hfin. exact Hfin.
Qed.

(** The timestamp of a returned template is the reading of the time
    source or one second after the median time, whichever is later; it is
    the maximum the documentation describes when the reading is a whole
    number of seconds. *)
Lemma template_timestamp fuel g payToAddress validateKey t :
  NewBlockTemplate fuel g payToAddress validateKey = Ok t ->
  ∃ clock,
    Timestamp (Header (Block t))
    = Z.max (AdjustedTime (timeSource g) clock)
            (MedianTime (BestSnapshot (chain g)) + Second) ∧
    (MedianTime (BestSnapshot (chain g)) + Second
     <= Timestamp (Header (Block t)))%Z ∧
    ((AdjustedTime (timeSource g) clock mod Second = 0)%Z ->
     Timestamp (Header (Block t))
     = Z.max (truncate_to_second (AdjustedTime (timeSource g) clock))
             (MedianTime (BestSnapshot (chain g)) + Second)).
Proof.
  intros Hnew.
  apply NewBlockTemplate_Ok in Hnew
    as (cs & cb & D & clock & s0 & s & _ & _ & _ & _ & Hfin).
  apply finish_template_Ok in Hfin
    as (cb' & out0 & outs & cbMsg & _ & _ & _ & _ & _ & _ & _ & _ & Hts & _).
  exists clock. rewrite Hts, medianAdjustedTime_max.
  split; [done|]. split; [lia|].
  intros Hwhole. by rewrite truncate_whole_second.
Qed.

End TemplateFacts.

Section Fees.
Import IntFacts.
Context `{Txscript} `{Wire} `{Blockchain} `{!Mining} `{ScriptData} `{MapRange}.

Lemma fees_inv_step g h D coinbaseTx s s' :
  fees_inv coinbaseTx s -> loop_body g h D s = Some s' ->
  fees_inv coinbaseTx s'.
Proof.
  intros [Hcb (rest & Hfees & Htotal)] Hbody.
  apply loop_body_cases in Hbody
    as (p & pq1 & prioItem & _ & _ & [Hskip|[Hback|Hadd]]).
  - destruct Hskip as (pq2 & sorted & tr & -> & _). split; [done|]. eauto.
  - destruct Hback as (pq2 & _ & -> & _). split; [done|]. eauto.
  - destruct Hadd as (pq2 & sorted & tr & n & _ & _ & _ & _ & _ & _ & ->).
    rewrite add_tx_fields. cbn zeta. split; simpl.
    + by apply lookup_app_l_Some.
    + exists (rest ++ [PrioItem.fee prioItem]). rewrite Hfees, Htotal.
      split; [done|]. by rewrite sum64_snoc.
Qed.

Lemma fees_inv_start g h coinbaseTx D clock s0 :
  start_assembly g h coinbaseTx = Some (D, clock, s0) ->
  fees_inv coinbaseTx s0.
Proof.
  intros (b & _ & _ & _ & ->)%start_assembly_Some.
  split; [done|]. by exists [].
Qed.

(** C1.  In every template [NewBlockTemplate] returns the fee list is
    settled: slot 0 holds the negative of the sum of the other entries, so
    the whole list adds up to zero, and the value of the coinbase output is
    the subsidy at the template height plus that sum (all in the [int64]
    arithmetic of the code). *)
Theorem C1_fee_settlement fuel g payToAddress validateKey t :
  NewBlockTemplate fuel g payToAddress validateKey = Ok t ->
  ∃ rest cb out outs,
    Fees t = Int.neg64 (Int.sum64 rest) :: rest ∧
    Int.sum64 (Fees t) = 0%Z ∧
    Transactions (Block t) !! 0 = Some cb ∧
    txOut cb = out :: outs ∧
    Value out
    = Int.add64 (CalcBlockSubsidy (TemplateHeight t)) (Int.sum64 rest).
Proof.
  intros Hnew.
  apply NewBlockTemplate_Ok in Hnew
    as (cs & coinbaseTx & D & clock & s0 & s & _ & Hcb & Hstart & Hasm & Hfin).
  pose proof (fees_inv_start _ _ _ _ _ _ Hstart) as Hinv0.
  destruct (assemble_invariant (fees_inv coinbaseTx) _ _ _
              (fun s s' => fees_inv_step _ _ _ _ s s') _ _ _ Hinv0 Hasm)
    as [[Hcb0 (rest & Hfees & Htotal)] _].
  apply finish_template_Ok in Hfin
    as (cb' & out0 & outs & cbMsg & Hcb' & Hout & Hmsg & Htx & Hf & _ & Hh & _).
  assert (0 < length (blockTxns s)) as Hlen
    by (by apply lookup_lt_Some in Hcb0).
  cbn zeta in Hmsg. simplify_eq.
  apply createCoinbaseTx_Some in Hcb as (pk & _ & Hcbmsg).
  rewrite Hcbmsg in Hout. simpl in Hout. simplify_eq.
  exists rest. eexists _, _, _.
  rewrite Hf, Hfees, Htotal. simpl.
  split; [done|]. split; [apply sum64_settled|].
  rewrite Htx. split.
  { by rewrite list_lookup_fmap, list_lookup_insert_eq. }
  simpl. split; [done|]. simpl. by rewrite Hh, Htotal.
Qed.

End Fees.

Lemma C1_fee_settlement_witness :
  NewBlockTemplate 5 Example.ex_gen_chain None tt
    = Ok Example.ex_template_chain ∧
  ∃ rest cb out outs,
    Fees Example.ex_template_chain = Int.neg64 (Int.sum64 rest) :: rest ∧
    Int.sum64 (Fees Example.ex_template_chain) = 0%Z ∧
    Transactions (Block Example.ex_template_chain) !! 0 = Some cb ∧
    txOut cb = out :: outs ∧
    Value out
    = Int.add64 (CalcBlockSubsidy (TemplateHeight Example.ex_template_chain))
                (Int.sum64 rest).
Proof.
  assert (NewBlockTemplate 5 Example.ex_gen_chain None tt
          = Ok Example.ex_template_chain) as Hrun
    by (vm_compute; reflexivity).
  split; [exact Hrun|].
  exact (C1_fee_settlement 5 Example.ex_gen_chain None tt
           Example.ex_template_chain Hrun).
Defined.

(** ** The coinbase script without a payment address *)

Section NilAddress.
Context `{Txscript} `{Wire} `{Blockchain} `{!Mining} `{ScriptData} `{MapRange}.
Import IntFacts.

(** C6, as the code has it.  When [payToAddress] is nil the coinbase
    output script of a returned template is the single opcode [OP_TRUE],
    except when the final value of the coinbase output (the subsidy plus
    the fee sum) is zero: then it is the single opcode [OP_RETURN].  The
    recorded size is the running size of the loop, corrected for the
    transaction count, minus, in the zero-value case, the length of the
    [OP_TRUE] script less the length of the [OP_RETURN] script. *)
Theorem C6_nil_address_coinbase fuel g validateKey t :
  NewBlockTemplate fuel g None validateKey = Ok t ->
  ∃ cb out outs,
    Transactions (Block t) !! 0 = Some cb ∧
    txOut cb = out :: outs ∧
    Value out
    = Int.add64 (CalcBlockSubsidy (TemplateHeight t))
                (Int.sum64 (drop 1 (Fees t))) ∧
    PkScript out = (if (Value out =? 0)%Z then [OP_RETURN] else [OP_TRUE]) ∧
    ∃ coinbaseScript coinbaseTx dependers clock s0 s,
      standardCoinbaseScript = Some coinbaseScript ∧
      createCoinbaseTx coinbaseScript (TemplateHeight t) None
        = Some coinbaseTx ∧
      start_assembly g (TemplateHeight t) coinbaseTx
        = Some (dependers, clock, s0) ∧
      assemble fuel g (TemplateHeight t) dependers s0 = Ok s ∧
      Size (Header (Block t))
      = recorded_size (blockSize s) (length (Transactions (Block t)))
          (Value out) [OP_TRUE].
Proof.
  intros Hnew.
  apply NewBlockTemplate_Ok in Hnew
    as (cs & coinbaseTx & D & clock & s0 & s & Hcs & Hcb & Hstart & Hasm & Hfin).
  pose proof (fees_inv_start _ _ _ _ _ _ Hstart) as Hinv0.
  destruct (assemble_invariant (fees_inv coinbaseTx) _ _ _
              (fun s s' => fees_inv_step _ _ _ _ s s') _ _ _ Hinv0 Hasm)
    as [[Hcb0 (rest & Hfees & Htotal)] _].
  apply finish_template_Ok in Hfin
    as (cb' & out0 & outs & cbMsg & Hcb' & Hout & Hmsg & Htx & Hf & _ & Hh
        & _ & _ & Hsize & _).
  assert (0 < length (blockTxns s)) as Hlen
    by (by apply lookup_lt_Some in Hcb0).
  cbn zeta in Hmsg, Hsize. simplify_eq.
  pose proof Hcb as Hcb2.
  apply createCoinbaseTx_Some in Hcb2 as (pk & -> & Hcbmsg).
  rewrite Hcbmsg in Hout. simpl in Hout. simplify_eq. simpl in *.
  eexists _, _, _. rewrite Htx.
  split; [by rewrite list_lookup_fmap, list_lookup_insert_eq|].
  simpl. split; [done|]. simpl.
  rewrite Hf, Hfees, Hh. simpl. rewrite drop_0, <- Htotal.
  split; [done|]. split; [done|].
  exists cs, cb', D, clock, s0, s.
  repeat (split; [done|]).
  by rewrite Hsize, length_fmap, length_insert.
Qed.

End NilAddress.

(** The claim as it was stated fails for the empty pool and a subsidy of
    50: the fee sum is zero and the script is [OP_TRUE], not
    [OP_RETURN]. *)
Lemma C6_zero_fees_keep_op_true :
  ∃ t cb out,
    NewBlockTemplate 0 (Example.ex_generator Example.ex_policy []) None tt
      = Ok t ∧
    Int.sum64 (drop 1 (Fees t)) = 0%Z ∧
    Transactions (Block t) !! 0 = Some cb ∧
    txOut cb !! 0 = Some out ∧
    PkScript out = [OP_TRUE] ∧
    PkScript out ≠ [OP_RETURN].
Proof.
  eexists _, _, _. split; [vm_compute; reflexivity|].
  split; [reflexivity|]. split; [reflexivity|]. split; [reflexivity|].
  split; [reflexivity|]. discriminate.
Qed.

Lemma C6_nil_address_coinbase_witness :
  NewBlockTemplate 5 Example.ex_gen_chain None tt
    = Ok Example.ex_template_chain ∧
  ∃ cb out outs,
    Transactions (Block Example.ex_template_chain) !! 0 = Some cb ∧
    txOut cb = out :: outs ∧
    Value out
    = Int.add64 (CalcBlockSubsidy (TemplateHeight Example.ex_template_chain))
                (Int.sum64 (drop 1 (Fees Example.ex_template_chain))) ∧
    PkScript out = (if (Value out =? 0)%Z then [OP_RETURN] else [OP_TRUE]) ∧
    ∃ coinbaseScript coinbaseTx dependers clock s0 s,
      standardCoinbaseScript = Some coinbaseScript ∧
      createCoinbaseTx coinbaseScript
        (TemplateHeight Example.ex_template_chain) None = Some coinbaseTx ∧
      start_assembly Example.ex_gen_chain
        (TemplateHeight Example.ex_template_chain) coinbaseTx
        = Some (dependers, clock, s0) ∧
      assemble 5 Example.ex_gen_chain
        (TemplateHeight Example.ex_template_chain) dependers s0 = Ok s ∧
      Size (Header (Block Example.ex_template_chain))
      = recorded_size (blockSize s)
          (length (Transactions (Block Example.ex_template_chain)))
          (Value out) [OP_TRUE].
Proof.
  assert (NewBlockTemplate 5 Example.ex_gen_chain None tt
          = Ok Example.ex_template_chain) as Hrun
    by (vm_compute; reflexivity).
  split; [exact Hrun|].
  exact (C6_nil_address_coinbase 5 Example.ex_gen_chain tt
           Example.ex_template_chain Hrun).
Defined.

(** ** The block size *)

Section BlockSize.
Context `{Txscript} `{Wire} `{Blockchain} `{!Mining} `{ScriptData} `{MapRange}.
Import IntFacts.
Local Open Scope Z_scope.

Lemma sizes_sum_app l1 l2 :
  sizes_sum (l1 ++ l2) = sizes_sum l1 + sizes_sum l2.
Proof. induction l1 as [|m l1 IH]; simpl; lia. Qed.

Lemma sizes_sum_nonneg l : 0 <= sizes_sum l.
Proof.
  induction l as [|m l IH]; simpl; [lia|].
  pose proof (wrapU32_range (SerializeSize m)) as []. lia.
Qed.

(** An addition that passes the size gate leaves the sum below the
    maximum and does not wrap. *)
Lemma size_gate_passed pol blockSize txSize :
  Int.inU32 blockSize -> Int.inU32 txSize ->
  exceeds_block_size pol blockSize (Int.addU32 blockSize txSize) = false ->
  Int.addU32 blockSize txSize = blockSize + txSize ∧
  blockSize + txSize < BlockMaxSize pol.
Proof.
  unfold exceeds_block_size, Int.addU32, Int.wrapU32, Int.inU32.
  intros Hb Ht [Hlt Hmax]%orb_false_elim.
  apply Z.ltb_ge in Hlt. apply Z.leb_gt in Hmax.
  destruct (Z_lt_ge_dec (blockSize + txSize) (2 ^ 32)) as [Hsmall|Hbig].
  - rewrite Z.mod_small in Hlt, Hmax |- * by lia. lia.
  - exfalso.
    replace ((blockSize + txSize) mod 2 ^ 32)
      with (blockSize + txSize - 2 ^ 32) in Hlt; [lia|].
    apply Z.mod_unique with 1; lia.
Qed.

(** A transaction that makes the running size exactly the maximum does
    not pass the size gate. *)
Lemma size_gate_exact_fill pol blockSize txSize :
  Int.addU32 blockSize txSize = BlockMaxSize pol ->
  exceeds_block_size pol blockSize (Int.addU32 blockSize txSize) = true.
Proof.
  unfold exceeds_block_size. intros ->.
  rewrite Z.leb_refl. apply orb_true_r.
Qed.

Lemma size_inv_step g h D initial s s' :
  size_inv (policy g) initial s -> loop_body g h D s = Some s' ->
  size_inv (policy g) initial s'.
Proof.
  intros (Hne & Hu & Hsum & Hpre) Hbody.
  apply loop_body_cases in Hbody
    as (p & pq1 & prioItem & _ & _ & [Hskip|[Hback|Hadd]]).
  - by destruct Hskip as (pq2 & sorted & tr & -> & _).
  - by destruct Hback as (pq2 & _ & -> & _).
  - destruct Hadd as (pq2 & sorted & tr & n & Hgate & _ & _ & _ & _ & _ & ->).
    rewrite add_tx_fields. cbn zeta.
    apply size_gate_passed in Hgate as [Hadd Hlt];
      [|done|apply wrapU32_range].
    unfold size_inv, added_msgs in *. simpl.
    destruct (blockTxns s) as [|cb txs] eqn:Htxs; [done|].
    + simpl in *. rewrite drop_0 in *.
      rewrite map_app, sizes_sum_app. simpl. rewrite Hadd.
      split; [done|].
      split; [rewrite <- Hadd; apply wrapU32_range|].
      split; [lia|]. intros k Hk.
      rewrite length_app in Hk. simpl in Hk.
      destruct (decide (k ≤ length (map MsgTx_of txs))%nat) as [Hle|Hgt].
      * rewrite take_app_le by done. apply Hpre. lia.
      * rewrite take_ge by (rewrite length_app; simpl; lia).
        rewrite sizes_sum_app. simpl. lia.
Qed.

Lemma size_inv_start g h coinbaseTx D clock s0 :
  start_assembly g h coinbaseTx = Some (D, clock, s0) ->
  size_inv (policy g)
    (Int.addU32 blockHeaderOverhead
       (Int.wrapU32 (SerializeSize (MsgTx_of coinbaseTx)))) s0.
Proof.
  intros (b & _ & _ & _ & ->)%start_assembly_Some.
  unfold size_inv, added_msgs. simpl.
  split; [done|].
  split; [apply wrapU32_range|]. split; [lia|]. intros k Hk. lia.
Qed.

Lemma VarIntSerializeSize_cases n :
  VarIntSerializeSize n = 1 ∨ VarIntSerializeSize n = 3 ∨
  VarIntSerializeSize n = 5 ∨ VarIntSerializeSize n = 9.
Proof. unfold VarIntSerializeSize. repeat case_match; auto. Qed.

(** The finalizer only takes away from the running size, when the running
    size covers the reserved count and a script that is part of it. *)
Lemma recorded_size_le loopSize n value pk :
  Int.inU32 loopSize ->
  (1 <= Z.of_nat (length pk)) ->
  (MaxVarIntPayload + Z.of_nat (length pk) <= loopSize) ->
  recorded_size loopSize n value pk <= loopSize.
Proof.
  unfold recorded_size, Int.inU32, MaxVarIntPayload.
  intros Hu Hpk Hcover. simpl length.
  set (c := Int.subU32 9 (Int.wrapU32 (VarIntSerializeSize (Z.of_nat n)))).
  assert (0 <= c <= 8) as Hc.
  { unfold c.
    destruct (VarIntSerializeSize_cases (Z.of_nat n)) as [-> | [-> | [-> | ->]]];
      vm_compute; split; discriminate. }
  assert (Int.subU32 loopSize c = loopSize - c) as ->.
  { unfold Int.subU32, Int.wrapU32. apply Z.mod_small. lia. }
  destruct (value =? 0); [|lia].
  assert (Int.wrapU32 (Z.of_nat (length pk) - Z.of_nat 1)
          = Z.of_nat (length pk) - 1) as ->.
  { unfold Int.wrapU32. apply Z.mod_small. lia. }
  unfold Int.subU32, Int.wrapU32. rewrite Z.mod_small by lia. lia.
Qed.

(** C4, as the code has it.  A transaction is added only when the running
    block size with it stays strictly below [BlockMaxSize]: one that makes
    it exactly [BlockMaxSize] is skipped.  So in a returned template, whose
    coinbase alone fits [BlockMaxSize] and has a serialized size that
    covers its non-empty output script, the running size after each added
    transaction is strictly below [BlockMaxSize], and the recorded size of
    the block does not exceed [BlockMaxSize]. *)
Theorem C4_block_size_below_max fuel g payToAddress validateKey t
  coinbaseScript coinbaseTx out :
  NewBlockTemplate fuel g payToAddress validateKey = Ok t ->
  standardCoinbaseScript = Some coinbaseScript ->
  createCoinbaseTx coinbaseScript
    (Int.wrapU32 (bestHeight (BestSnapshot (chain g)) + 1)) payToAddress
    = Some coinbaseTx ->
  txOut (MsgTx_of coinbaseTx) !! 0%nat = Some out ->
  0 <= MaxBlockHeaderPayload ->
  1 <= Z.of_nat (length (PkScript out))
    <= SerializeSize (MsgTx_of coinbaseTx) ->
  blockHeaderOverhead + SerializeSize (MsgTx_of coinbaseTx)
    <= BlockMaxSize (policy g) < 2 ^ 32 ->
  (∀ k, (1 ≤ k ≤ length (drop 1 (Transactions (Block t))))%nat ->
        blockHeaderOverhead + SerializeSize (MsgTx_of coinbaseTx)
        + sizes_sum (take k (drop 1 (Transactions (Block t))))
        < BlockMaxSize (policy g)) ∧
  Size (Header (Block t)) <= BlockMaxSize (policy g).
Proof.
  intros Hnew Hcs Hcb Hout Hov Hpk Hfit.
  apply NewBlockTemplate_Ok in Hnew
    as (cs & cb & D & clock & s0 & s & Hcs' & Hcb' & Hstart & Hasm & Hfin).
  cbn zeta in *. simplify_eq.
  pose proof (fees_inv_start _ _ _ _ _ _ Hstart) as Hf0.
  destruct (assemble_invariant (fees_inv cb) _ _ _
              (fun s s' => fees_inv_step _ _ _ _ s s') _ _ _ Hf0 Hasm)
    as [[Hcb0 _] _].
  pose proof (size_inv_start _ _ _ _ _ _ Hstart) as Hs0.
  destruct (assemble_invariant (size_inv (policy g) _) _ _ _
              (fun s s' => size_inv_step _ _ _ _ s s') _ _ _ Hs0 Hasm)
    as [(_ & Hu & Hsum & Hpre) _].
  assert (Int.addU32 blockHeaderOverhead
            (Int.wrapU32 (SerializeSize (MsgTx_of cb)))
          = blockHeaderOverhead + SerializeSize (MsgTx_of cb)) as Hinit.
  { unfold blockHeaderOverhead, MaxVarIntPayload in *.
    unfold Int.addU32, Int.wrapU32.
    rewrite Zplus_mod_idemp_r. apply Z.mod_small. lia. }
  rewrite Hinit in *.
  apply finish_template_Ok in Hfin
    as (cb' & out0 & outs & cbMsg & Hcb'' & Hout0 & Hmsg & Htx & _ & _ & _
        & _ & _ & Hsize & _).
  cbn zeta in Hmsg, Hsize. simplify_eq.
  rewrite Hout0 in Hout. simpl in Hout. simplify_eq.
  assert (drop 1 (Transactions (Block t)) = added_msgs s) as Hadded.
  { rewrite Htx. unfold added_msgs.
    destruct (blockTxns s); [done|]. by simpl; rewrite !drop_0. }
  rewrite Hadded. split; [exact Hpre|].
  rewrite Hsize.
  pose proof (sizes_sum_nonneg (added_msgs s)).
  assert (blockSize s <= BlockMaxSize (policy g)) as Hmax.
  { destruct (added_msgs s) as [|m l] eqn:Hl.
    - simpl in Hsum. lia.
    - specialize (Hpre (length (m :: l)) ltac:(simpl; lia)).
      rewrite take_ge in Hpre by lia. lia. }
  etrans; [apply recorded_size_le|exact Hmax].
  - done.
  - lia.
  - unfold blockHeaderOverhead, MaxVarIntPayload in *. lia.
Qed.

End BlockSize.

(** The claim as it was stated fails for a transaction of 61 bytes on top
    of a running size of 259 bytes with [BlockMaxSize] 320: it fills the
    block exactly, its signature operations fit, and it is skipped (the
    block holds the coinbase only); with [BlockMaxSize] 321 it is added.
    And with a [BlockMaxSize] of 100, below the size of the header and the
    coinbase, the recorded size of the returned block is 251. *)
Lemma C4_exact_fill_is_skipped :
  ∃ D clock s0 t t' t'',
    start_assembly (Example.ex_generator Example.ex_policy_320
                      Example.ex_pool_one) 100 Example.ex_coinbase
      = Some (D, clock, s0) ∧
    blockSize s0 = 259%Z ∧
    Int.wrapU32 (SerializeSize (MsgTx_of Example.ex_tx20)) = 61%Z ∧
    (blockSize s0 + 61 = BlockMaxSize Example.ex_policy_320)%Z ∧
    exceeds_sigops (blockSigOps s0) (CountSigOps Example.ex_tx20) = false ∧
    NewBlockTemplate 1 (Example.ex_generator Example.ex_policy_320
                          Example.ex_pool_one) None tt = Ok t ∧
    length (Transactions (Block t)) = 1%nat ∧
    NewBlockTemplate 1 (Example.ex_generator Example.ex_policy_321
                          Example.ex_pool_one) None tt = Ok t' ∧
    length (Transactions (Block t')) = 2%nat ∧
    NewBlockTemplate 0 (Example.ex_generator Example.ex_policy_100 [])
                     None tt = Ok t'' ∧
    Size (Header (Block t'')) = 251%Z ∧
    (BlockMaxSize Example.ex_policy_100 < Size (Header (Block t'')))%Z.
Proof.
  eexists _, _, _, _, _, _.
  split; [vm_compute; reflexivity|].
  split; [reflexivity|]. split; [reflexivity|]. split; [reflexivity|].
  split; [reflexivity|].
  split; [vm_compute; reflexivity|]. split; [reflexivity|].
  split; [vm_compute; reflexivity|]. split; [reflexivity|].
  split; [vm_compute; reflexivity|]. split; reflexivity.
Qed.

Lemma C4_block_size_below_max_witness :
  NewBlockTemplate 5 Example.ex_gen_chain None tt
    = Ok Example.ex_template_chain ∧
  standardCoinbaseScript = Some ("007"%byte :: coinbaseFlags) ∧
  createCoinbaseTx ("007"%byte :: coinbaseFlags)
    (Int.wrapU32 (bestHeight (BestSnapshot (chain Example.ex_gen_chain)) + 1))
    None = Some Example.ex_coinbase ∧
  txOut (MsgTx_of Example.ex_coinbase) !! 0 = Some (mkTxOut 50 [OP_TRUE]) ∧
  (0 <= MaxBlockHeaderPayload)%Z ∧
  (1 <= Z.of_nat (length (PkScript (mkTxOut 50 [OP_TRUE])))
     <= SerializeSize (MsgTx_of Example.ex_coinbase))%Z ∧
  (blockHeaderOverhead + SerializeSize (MsgTx_of Example.ex_coinbase)
     <= BlockMaxSize (policy Example.ex_gen_chain) < 2 ^ 32)%Z ∧
  (∀ k, 1 ≤ k ≤ length (drop 1 (Transactions
                                  (Block Example.ex_template_chain))) ->
        (blockHeaderOverhead + SerializeSize (MsgTx_of Example.ex_coinbase)
         + sizes_sum (take k (drop 1 (Transactions
                                        (Block Example.ex_template_chain))))
         < BlockMaxSize (policy Example.ex_gen_chain))%Z) ∧
  (Size (Header (Block Example.ex_template_chain))
   <= BlockMaxSize (policy Example.ex_gen_chain))%Z.
Proof.
  assert (NewBlockTemplate 5 Example.ex_gen_chain None tt
          = Ok Example.ex_template_chain) as Hrun
    by (vm_compute; reflexivity).
  assert (0 <= MaxBlockHeaderPayload)%Z as Hov by (vm_compute; discriminate).
  assert (1 <= Z.of_nat (length (PkScript (mkTxOut 50 [OP_TRUE])))
            <= SerializeSize (MsgTx_of Example.ex_coinbase))%Z as Hpk
    by (vm_compute; split; discriminate).
  assert (blockHeaderOverhead + SerializeSize (MsgTx_of Example.ex_coinbase)
            <= BlockMaxSize (policy Example.ex_gen_chain) < 2 ^ 32)%Z as Hfit
    by (vm_compute; split; [discriminate|reflexivity]).
  split; [exact Hrun|]. split; [reflexivity|]. split; [reflexivity|].
  split; [reflexivity|]. split; [exact Hov|]. split; [exact Hpk|].
  split; [exact Hfit|].
  exact (C4_block_size_below_max 5 Example.ex_gen_chain None tt
           Example.ex_template_chain ("007"%byte :: coinbaseFlags)
           Example.ex_coinbase (mkTxOut 50 [OP_TRUE])
           Hrun eq_refl eq_refl eq_refl Hov Hpk Hfit).
Defined.

(** ** The candidate builder *)

Section BuilderFacts.
Context `{Txscript} `{Wire} `{Blockchain} `{!Mining} `{ScriptData} `{MapRange}.

Lemma enqueued_app tr1 tr2 : enqueued (tr1 ++ tr2) = enqueued tr1 ++ enqueued tr2.
Proof. apply omap_app. Qed.
Lemma finished_app tr1 tr2 : finished (tr1 ++ tr2) = finished tr1 ++ finished tr2.
Proof. apply omap_app. Qed.
Lemma added_app tr1 tr2 : added (tr1 ++ tr2) = added tr1 ++ added tr2.
Proof. apply omap_app. Qed.
Lemma pushed_by_app k tr1 tr2 :
  pushed_by k (tr1 ++ tr2) = pushed_by k tr1 ++ pushed_by k tr2.
Proof. apply omap_app. Qed.

Lemma store_grows_refl st : store_grows st st.
Proof. intros q it Hq. by exists it. Qed.

Lemma store_grows_trans st1 st2 st3 :
  store_grows st1 st2 -> store_grows st2 st3 -> store_grows st1 st3.
Proof.
  intros H12 H23 q it Hq.
  destruct (H12 _ _ Hq) as (it2 & Hq2 & Htx2 & Hd2).
  destruct (H23 _ _ Hq2) as (it3 & Hq3 & Htx3 & Hd3).
  exists it3. split; [done|]. split; [congruence|]. set_solver.
Qed.

Lemma store_grows_app st l : store_grows st (st ++ l).
Proof.
  intros q it Hq. exists it. split; [by apply lookup_app_l_Some|done].
Qed.

Lemma store_grows_add_dependsOn st p oh :
  store_grows st (alter (add_dependsOn oh) p st).
Proof.
  intros q it Hq. destruct (decide (q = p)) as [->|Hne].
  - exists (add_dependsOn oh it).
    rewrite list_lookup_alter_eq, Hq. split; [done|]. split; [done|].
    unfold deps_of, add_dependsOn. simpl. set_solver.
  - exists it. by rewrite list_lookup_alter_ne.
Qed.

Lemma store_grows_set_metadata st p prio perKB fee admin :
  store_grows st (alter (set_metadata prio perKB fee admin) p st).
Proof.
  intros q it Hq. destruct (decide (q = p)) as [->|Hne].
  - exists (set_metadata prio perKB fee admin it).
    by rewrite list_lookup_alter_eq, Hq.
  - exists it. by rewrite list_lookup_alter_ne.
Qed.

Lemma dependers_inv_grows D st st' tr :
  dependers_inv D st tr -> store_grows st st' -> dependers_inv D st' tr.
Proof.
  intros Hinv Hgrow ph m c q Hm Hq.
  destruct (Hinv _ _ _ _ Hm Hq) as (it & Hit & Hc & Hdep).
  destruct (Hgrow _ _ Hit) as (it' & Hit' & Htx & Hsub).
  exists it'. split; [done|]. split; [unfold item_hash in *; congruence|].
  destruct Hdep as [Hin|(r & itr & Hr & Hitr & Hph)]; [left; set_solver|].
  right. destruct (Hgrow _ _ Hitr) as (itr' & Hitr' & Htxr & _).
  exists r, itr'. split; [done|]. split; [done|].
  unfold item_hash in *. congruence.
Qed.

(** The scan of the inputs of a transaction writes to the new candidate
    only, and only to its [dependsOn]. *)
Lemma setup_dependencies_frame src utxos c p ins st D st' D' ok :
  setup_dependencies src utxos c p ins st D = (st', D', ok) ->
  length st' = length st ∧
  store_grows st st' ∧
  (∀ q, q ≠ p -> st' !! q = st !! q) ∧
  map item_hash st' = map item_hash st.
Proof.
  revert st D. induction ins as [|i ins IH]; intros st D; simpl.
  - intros [= <- <- <-]. split; [done|]. split; [apply store_grows_refl|done].
  - destruct (input_unavailable utxos i); [|apply IH].
    destruct (HaveTransaction src _); simpl.
    + intros Hrec. apply IH in Hrec as (Hlen & Hgrow & Hother & Hhash).
      rewrite length_alter in Hlen. split; [done|].
      split; [eapply store_grows_trans;
              [apply store_grows_add_dependsOn|done]|].
      split.
      * intros q Hq. rewrite Hother by done. by apply list_lookup_alter_ne.
      * rewrite Hhash. apply list_eq. intros k.
        rewrite !list_lookup_fmap. destruct (decide (k = p)) as [->|Hne].
        -- rewrite list_lookup_alter_eq. by destruct (st !! p).
        -- by rewrite list_lookup_alter_ne.
    + intros [= <- <- <-]. split; [done|].
      split; [apply store_grows_refl|done].
Qed.

Lemma setup_dependencies_dependers src utxos c p ins st D st' D' ok it tr :
  setup_dependencies src utxos c p ins st D = (st', D', ok) ->
  st !! p = Some it -> item_hash it = c ->
  dependers_inv D st tr -> dependers_inv D' st' tr.
Proof.
  revert st D it. induction ins as [|i ins IH]; intros st D it; simpl.
  - by intros [= <- <- <-].
  - destruct (input_unavailable utxos i); [|apply IH].
    destruct (HaveTransaction src _); simpl; [|by intros [= <- <- <-]].
    intros Hrec Hp Hc Hinv.
    set (oh := opHash (PreviousOutPoint i)) in *.
    eapply (IH _ _ (add_dependsOn oh it)); [exact Hrec| | |].
    + by rewrite list_lookup_alter_eq, Hp.
    + done.
    + intros ph m c' q Hm Hq.
      destruct (decide (ph = oh)) as [->|Hne].
      * rewrite lookup_insert_eq in Hm. simplify_eq.
        destruct (decide (c' = item_hash it)) as [->|Hnec].
        -- rewrite lookup_insert_eq in Hq. simplify_eq.
           exists (add_dependsOn oh it).
           rewrite list_lookup_alter_eq, Hp. split; [done|]. split; [done|].
           left. unfold deps_of, add_dependsOn. simpl. set_solver.
        -- rewrite lookup_insert_ne in Hq by done.
           destruct (D !! oh) as [m|] eqn:Hoh; [|done]. simpl in Hq.
           eapply dependers_inv_grows;
             [exact Hinv|apply store_grows_add_dependsOn|exact Hoh|exact Hq].
      * rewrite lookup_insert_ne in Hm by done.
        eapply dependers_inv_grows;
          [exact Hinv|apply store_grows_add_dependsOn|exact Hm|exact Hq].
Qed.

(** When no input is missing from both the chain view and the pool, the
    scan runs to its end and records every input the view does not
    provide. *)
Lemma setup_dependencies_complete src utxos c p ins st D st' D' ok it :
  setup_dependencies src utxos c p ins st D = (st', D', ok) ->
  st !! p = Some it ->
  (∀ i, i ∈ ins -> input_unavailable utxos i = true ->
        HaveTransaction src (opHash (PreviousOutPoint i)) = true) ->
  ok = true ∧
  ∃ it', st' !! p = Some it' ∧ deps_of it ⊆ deps_of it' ∧
         ∀ i, i ∈ ins -> input_unavailable utxos i = true ->
              opHash (PreviousOutPoint i) ∈ deps_of it'.
Proof.
  revert st D it. induction ins as [|i ins IH]; intros st D it; simpl.
  - intros [= <- <- <-] Hp _. split; [done|]. exists it.
    split; [done|]. split; [done|]. intros i Hi. by apply elem_of_nil in Hi.
  - intros Hrec Hp Hpool.
    destruct (input_unavailable utxos i) eqn:Hun.
    + assert (HaveTransaction src (opHash (PreviousOutPoint i)) = true)
        as Hhave by (apply Hpool; [left|done]).
      rewrite Hhave in Hrec. simpl in Hrec.
      remember (opHash (PreviousOutPoint i)) as oh eqn:Hoh.
      destruct (IH _ _ (add_dependsOn oh it) Hrec)
        as (Hok & it' & Hit' & Hsub & Hall).
      { by rewrite list_lookup_alter_eq, Hp. }
      { intros j Hj. apply Hpool. by right. }
      split; [done|]. exists it'. split; [done|].
      assert (deps_of (add_dependsOn oh it) = {[oh]} ∪ deps_of it) as Hadd
        by done.
      rewrite Hadd in Hsub.
      split; [set_solver|].
      intros j [->|Hj]%elem_of_cons Hj'; [set_solver|by apply Hall].
    + destruct (IH _ _ it Hrec Hp) as (Hok & it' & Hit' & Hsub & Hall).
      { intros j Hj. apply Hpool. by right. }
      split; [done|]. exists it'. split; [done|]. split; [done|].
      intros j [->|Hj]%elem_of_cons Hj'; [congruence|by apply Hall].
Qed.

(** The ways an iteration of [mempoolLoop] can end: without a candidate,
    with a candidate the scan abandoned, or with a complete candidate,
    which is pushed when it waits for nothing. *)
Lemma consider_cases g h b d b' :
  consider g h b d = Some b' ->
  (b_store b' = b_store b ∧ b_priorityQueue b' = b_priorityQueue b ∧
   b_dependers b' = b_dependers b ∧ b_trace b' = b_trace b)
  ∨ ∃ utxos st1 ok,
      let tx := Tx_of d in
      let p := length (b_store b) in
      FetchUtxoView (chain g) tx = Some utxos ∧
      setup_dependencies (txSource g) utxos (txHash tx) p
        (txIn (MsgTx_of tx))
        (b_store b ++ [PrioItem.mk tx 0 float_zero 0 false None])
        (b_dependers b) = (st1, b_dependers b', ok) ∧
      ((ok = false ∧ b_store b' = st1 ∧
        b_priorityQueue b' = b_priorityQueue b ∧ b_trace b' = b_trace b)
       ∨ (ok = true ∧
          ∃ prio perKB it,
            b_store b'
            = alter (set_metadata prio perKB (Fee d) (isAdmin (MsgTx_of tx)))
                    p st1 ∧
            b_store b' !! p = Some it ∧
            ((PrioItem.dependsOn it = None ∧
              b_priorityQueue b' = heap_Push (b_store b') (b_priorityQueue b) p ∧
              b_trace b' = b_trace b ++ [Pushed ByBuilder p])
             ∨ (PrioItem.dependsOn it ≠ None ∧
                b_priorityQueue b' = b_priorityQueue b ∧
                b_trace b' = b_trace b)))).
Proof.
  unfold consider. cbn zeta.
  destruct (IsCoinBase (Tx_of d)); [intros [= <-]; by left|].
  destruct (negb (IsFinalizedTransaction _ _ _)); [intros [= <-]; by left|].
  destruct (FetchUtxoView (chain g) (Tx_of d)) as [utxos|] eqn:Hfetch;
    [|intros [= <-]; by left].
  destruct (setup_dependencies _ _ _ _ _ _ _) as [[st1 D1] ok] eqn:Hscan.
  destruct ok; simpl.
  - destruct (_ =? 0)%Z; [done|].
    match goal with |- context [alter ?f ?p st1] =>
      set (st2 := alter f p st1) end.
    destruct (st2 !! length (b_store b)) as [it|] eqn:Hit.
    + destruct (bool_decide (PrioItem.dependsOn it = None)) eqn:Hnone.
      * apply bool_decide_eq_true in Hnone. intros [= <-]. simpl.
        right. exists utxos, st1, true. split; [done|]. split; [done|].
        right. split; [done|]. eexists _, _, it. split; [done|].
        split; [done|]. left. done.
      * apply bool_decide_eq_false in Hnone. intros [= <-]. simpl.
        right. exists utxos, st1, true. split; [done|]. split; [done|].
        right. split; [done|]. eexists _, _, it. split; [done|].
        split; [done|]. right. done.
    + exfalso. apply lookup_ge_None in Hit. unfold st2 in Hit.
      rewrite length_alter in Hit.
      apply setup_dependencies_frame in Hscan as (Hlen & _).
      rewrite Hlen, length_app in Hit. simpl in Hit. lia.
  - intros [= <-]. simpl. right. exists utxos, st1, false.
    split; [done|]. split; [done|]. left. done.
Qed.

Lemma dependers_inv_trace D st tr tr' :
  added tr' = added tr -> dependers_inv D st tr -> dependers_inv D st tr'.
Proof.
  intros Hadd Hinv ph m c q Hm Hq.
  destruct (Hinv _ _ _ _ Hm Hq) as (it & Hit & Hc & Hdep).
  exists it. by rewrite Hadd.
Qed.

Lemma map_item_hash_alter (f : txPrioItem -> txPrioItem) p (st : itemStore) :
  (∀ it, PrioItem.tx (f it) = PrioItem.tx it) ->
  map item_hash (alter f p st) = map item_hash st.
Proof.
  intros Hf. apply list_eq. intros k. rewrite !list_lookup_fmap.
  destruct (decide (k = p)) as [->|Hne].
  - rewrite list_lookup_alter_eq. destruct (st !! p); simpl; [|done].
    unfold item_hash. by rewrite Hf.
  - by rewrite list_lookup_alter_ne.
Qed.

Lemma consider_inv g h b d rest b' :
  builder_inv g (d :: rest) b -> consider g h b d = Some b' ->
  builder_inv g rest b'.
Proof.
  intros (Htr & Hnd & Hbound & Hperm & Hnone & Hdep & Hcomp & Hlen & Hhash)
         Hcons.
  assert (NoDup (pool_hashes (MiningDescs (txSource g))) ->
          NoDup (map item_hash (b_store b) ++ pool_hashes rest)) as Hhash_drop.
  { intros Hpool. specialize (Hhash Hpool). simpl in Hhash.
    apply NoDup_app in Hhash as (Hn1 & Hn2 & Hn3).
    apply NoDup_cons in Hn3 as [_ Hn3]. apply NoDup_app.
    split; [done|]. split; [|done]. intros x Hx Hx'. eapply Hn2; [done|].
    by right. }
  apply consider_cases in Hcons
    as [(Hst & Hpq & HD & Htrace)|(utxos & st1 & ok & Hfetch & Hscan & Hcase)].
  { unfold builder_inv. rewrite Hst, Hpq, HD, Htrace. simpl in Hlen.
    repeat (split; [done|]). split; [lia|done]. }
  cbn zeta in *.
  set (tx := Tx_of d) in *.
  set (p := length (b_store b)) in *.
  set (new := PrioItem.mk tx 0 float_zero 0 false None) in *.
  pose proof (setup_dependencies_frame _ _ _ _ _ _ _ _ _ _ Hscan)
    as (Hlen1 & Hgrow1 & Hother1 & Hhash1).
  rewrite length_app in Hlen1. simpl in Hlen1.
  assert ((b_store b ++ [new]) !! p = Some new) as Hnew.
  { unfold p. by rewrite lookup_app_r, Nat.sub_diag by lia. }
  assert (∀ q it, b_store b !! q = Some it -> st1 !! q = Some it) as Hold1.
  { intros q it Hq. rewrite Hother1.
    - by apply lookup_app_l_Some.
    - apply lookup_lt_Some in Hq. unfold p. lia. }
  assert (dependers_inv (b_dependers b') st1 (b_trace b)) as Hdep1.
  { eapply setup_dependencies_dependers; [exact Hscan|exact Hnew|done|].
    eapply dependers_inv_grows; [exact Hdep|apply store_grows_app]. }
  assert (NoDup (pool_hashes (MiningDescs (txSource g))) ->
          NoDup (map item_hash st1 ++ pool_hashes rest)) as Hhash_st1.
  { intros Hpool. specialize (Hhash Hpool). simpl in Hhash.
    rewrite Hhash1, map_app. simpl. by rewrite <- app_assoc. }
  destruct Hcase as [(-> & Hst & Hpq & Htrace)
                    |(-> & prio & perKB & it & Hst & Hit & Hpush)].
  - (* the scan abandoned the candidate *)
    unfold builder_inv. rewrite Hst, Hpq, Htrace.
    split; [done|]. split; [done|].
    split; [intros q Hq; specialize (Hbound q Hq); lia|].
    split; [done|].
    split.
    { intros q it Hq Hin. apply (Hnone q); [|done].
      specialize (Hbound q Hin).
      rewrite Hother1 in Hq by (unfold p; lia).
      by rewrite lookup_app_l in Hq. }
    split; [done|].
    split.
    { intros q it utxos' Hq Hf Hpool.
      destruct (decide (q = p)) as [->|Hne].
      - exfalso.
        destruct (Hgrow1 _ _ Hnew) as (it' & Hit' & Htx' & _).
        simplify_eq. rewrite Htx' in *. simpl in *. fold tx in Hf.
        simplify_eq.
        by destruct (setup_dependencies_complete _ _ _ _ _ _ _ _ _ _ _
                       Hscan Hnew Hpool) as [? _].
      - rewrite Hother1 in Hq by done.
        assert (q < p) as Hlt.
        { apply lookup_lt_Some in Hq. rewrite length_app in Hq.
          simpl in Hq. unfold p in *. lia. }
        rewrite lookup_app_l in Hq by done.
        by apply (Hcomp q it utxos'). }
    split; [simpl in Hlen; lia|done].
  - (* a complete candidate *)
    assert (store_grows st1 (b_store b')) as Hgrow2
      by (rewrite Hst; apply store_grows_set_metadata).
    assert (length (b_store b') = S p) as Hlen2
      by (rewrite Hst, length_alter; unfold p; lia).
    assert (∀ q it, b_store b !! q = Some it -> b_store b' !! q = Some it)
      as Hold2.
    { intros q it0 Hq. rewrite Hst, list_lookup_alter_ne; [by apply Hold1|].
      apply lookup_lt_Some in Hq. unfold p. lia. }
    assert (∀ q it0, q ≠ p -> b_store b' !! q = Some it0 ->
                     b_store b !! q = Some it0) as Hold3.
    { intros q it0 Hne Hq. rewrite Hst, list_lookup_alter_ne in Hq by done.
      rewrite Hother1 in Hq by done.
      assert (q < p) as Hlt.
      { apply lookup_lt_Some in Hq. rewrite length_app in Hq.
        simpl in Hq. unfold p in *. lia. }
      by rewrite lookup_app_l in Hq. }
    assert (complete_inv g (b_store b')) as Hcomp2.
    { intros q it0 utxos' Hq Hf Hpool.
      destruct (decide (q = p)) as [->|Hne]; [|by eapply Hcomp; eauto].
      rewrite Hit in Hq. simplify_eq.
      rewrite Hst, list_lookup_alter_eq in Hit.
      destruct (st1 !! p) as [it1|] eqn:Hit1; [|done]. simpl in Hit.
      simplify_eq.
      destruct (Hgrow1 _ _ Hnew) as (it' & Hit' & Htx' & _).
      simplify_eq. simpl in *. rewrite Htx' in *. simpl in *. fold tx in Hf.
      simplify_eq.
      destruct (setup_dependencies_complete _ _ _ _ _ _ _ _ _ _ _
                  Hscan Hnew Hpool) as (_ & it2 & Hit2 & _ & Hall).
      by simplify_eq. }
    assert (dependers_inv (b_dependers b') (b_store b') (b_trace b)) as Hdep2
      by (eapply dependers_inv_grows; eauto).
    assert (NoDup (pool_hashes (MiningDescs (txSource g))) ->
            NoDup (map item_hash (b_store b') ++ pool_hashes rest)) as Hhash2.
    { intros Hpool. rewrite Hst, map_item_hash_alter by done. auto. }
    destruct Hpush as [(Hdn & Hpq & Htrace)|(Hdn & Hpq & Htrace)].
    + unfold builder_inv. rewrite Hpq, Htrace.
      rewrite enqueued_app. simpl.
      split; [by rewrite map_app, <- Htr|].
      split.
      { apply NoDup_app. split; [done|]. split; [|apply NoDup_singleton].
        intros q Hq ->%list_elem_of_singleton.
        specialize (Hbound _ Hq). unfold p in Hbound. lia. }
      split.
      { intros q [Hq| ->%list_elem_of_singleton]%elem_of_app; [|lia].
        specialize (Hbound _ Hq). lia. }
      split.
      { rewrite heap_Push_items, <- Hperm. by rewrite Permutation_app_comm. }
      split.
      { intros q it0 Hq [Hin| ->%list_elem_of_singleton]%elem_of_app.
        - apply (Hnone q); [|done]. apply Hold3; [|done].
          specialize (Hbound _ Hin). unfold p. lia.
        - by simplify_eq. }
      split.
      { eapply dependers_inv_trace; [|exact Hdep2].
        by rewrite added_app, app_nil_r. }
      split; [done|]. split; [simpl in Hlen; lia|done].
    + unfold builder_inv. rewrite Hpq, Htrace.
      split; [done|]. split; [done|].
      split; [intros q Hq; specialize (Hbound q Hq); lia|].
      split; [done|].
      split.
      { intros q it0 Hq Hin. apply (Hnone q); [|done]. apply Hold3; [|done].
        specialize (Hbound _ Hin). unfold p. lia. }
      split; [done|]. split; [done|]. split; [simpl in Hlen; lia|done].
Qed.

Lemma mempoolLoop_inv g h pool b b' :
  builder_inv g pool b -> mempoolLoop g h b pool = Some b' ->
  builder_inv g [] b'.
Proof.
  revert b. induction pool as [|d rest IH]; intros b Hinv; simpl.
  - by intros [= <-].
  - destruct (consider g h b d) as [b1|] eqn:Hcons; [|done]. simpl.
    apply IH. by eapply consider_inv.
Qed.

Lemma builder_inv_start g b :
  builder_inv g (MiningDescs (txSource g))
    (mkBuilder [] (newTxPriorityQueue [] b) ∅ ∅ 0 []).
Proof.
  unfold builder_inv. simpl. rewrite newTxPriorityQueue_items.
  split; [done|]. split; [apply NoDup_nil_2|].
  split; [by intros q Hq%elem_of_nil|]. split; [done|].
  split; [done|]. split; [by intros ph m c q Hm|].
  split; [by intros q it utxos Hq|]. split; [done|]. done.
Qed.

End BuilderFacts.

(** ** The queue during the assembly loop *)

Section QueueFacts.
Context `{Txscript} `{Wire} `{Blockchain} `{!Mining} `{ScriptData} `{MapRange}.

Lemma delete_dependsOn_idemp h it :
  delete_dependsOn h (delete_dependsOn h it) = delete_dependsOn h it.
Proof.
  unfold delete_dependsOn. simpl. f_equal.
  destruct (PrioItem.dependsOn it) as [s|]; simpl; [|done].
  f_equal. set_solver.
Qed.

Lemma delete_dependsOn_deps h it :
  deps_of (delete_dependsOn h it) = deps_of it ∖ {[h]}.
Proof.
  unfold deps_of, delete_dependsOn. simpl.
  destruct (PrioItem.dependsOn it) as [s|]; simpl; [done|set_solver].
Qed.

Lemma dependsOn_empty_deps it :
  dependsOn_empty it = true <-> deps_of it = ∅.
Proof.
  unfold dependsOn_empty, deps_of.
  destruct (PrioItem.dependsOn it) as [s|]; simpl; [|done].
  by rewrite bool_decide_eq_true.
Qed.

Lemma delete_all_length parent l st :
  length (delete_all parent l st) = length st.
Proof.
  revert st. induction l as [|q l IH]; intros st; simpl; [done|].
  unfold delete_all in *. simpl. by rewrite IH, length_alter.
Qed.

Lemma delete_all_lookup parent l st q :
  delete_all parent l st !! q
  = if decide (q ∈ l) then delete_dependsOn parent <$> st !! q else st !! q.
Proof.
  revert st. induction l as [|a l IH]; intros st.
  - destruct (decide (q ∈ [])) as [Hin|]; [by apply elem_of_nil in Hin|done].
  - unfold delete_all in *. simpl. rewrite IH.
    destruct (decide (a = q)) as [->|Hne].
    + rewrite list_lookup_alter_eq.
      destruct (decide (q ∈ q :: l)) as [_|Hnin]; [|by destruct Hnin; left].
      destruct (decide (q ∈ l)); [|done].
      destruct (st !! q); simpl; [|done]. by rewrite delete_dependsOn_idemp.
    + rewrite list_lookup_alter_ne by done.
      destruct (decide (q ∈ l)) as [Hin|Hnin];
        destruct (decide (q ∈ a :: l)) as [Hin'|Hnin']; try done.
      * destruct Hnin'. by right.
      * apply elem_of_cons in Hin' as [?|?]; congruence.
Qed.

Lemma delete_all_hashes parent l st :
  map item_hash (delete_all parent l st) = map item_hash st.
Proof.
  revert st. induction l as [|q l IH]; intros st; [done|].
  unfold delete_all in *. simpl. rewrite IH.
  by apply map_item_hash_alter.
Qed.

(** The loop over the dependents: the parent is deleted from every
    dependent, and some of the dependents, all of which wait for nothing
    any more, are pushed. *)
Lemma promote_spec parent deps st pq tr st' pq' tr' :
  promote parent deps st pq tr = (st', pq', tr') ->
  st' = delete_all parent deps.*2 st ∧
  ∃ pushed,
    tr' = tr ++ map (Pushed ByPromotion) pushed ∧
    items pq' ≡ₚ pushed ++ items pq ∧
    pushed `sublist_of` deps.*2 ∧
    ∀ q, q ∈ pushed ->
         ∃ it, st' !! q = Some it ∧ dependsOn_empty it = true.
Proof.
  revert st pq tr. induction deps as [|[c q] deps IH]; intros st pq tr; simpl.
  - intros [= <- <- <-]. split; [done|]. exists [].
    rewrite app_nil_r. split; [done|]. split; [done|]. split; [done|].
    by intros q Hq%elem_of_nil.
  - set (st1 := alter (delete_dependsOn parent) q st).
    assert (∀ it, st1 !! q = Some it ->
              delete_all parent deps.*2 st1 !! q = Some it) as Hkeep.
    { intros it Hit. rewrite delete_all_lookup, Hit.
      destruct (decide _); [|done]. simpl. f_equal.
      unfold st1 in Hit. rewrite list_lookup_alter_eq in Hit.
      destruct (st !! q); simplify_eq/=. apply delete_dependsOn_idemp. }
    destruct (st1 !! q) as [item|] eqn:Hitem.
    + destruct (dependsOn_empty item) eqn:Hempty.
      * intros Hrec. apply IH in Hrec as (-> & pushed & -> & Hperm & Hsub & Hready).
        split; [done|]. exists (q :: pushed).
        split; [by rewrite <- app_assoc|].
        split; [by rewrite Hperm, heap_Push_items, <- Permutation_middle|].
        split; [by apply sublist_skip|].
        intros q' [->|Hq']%elem_of_cons; [|by apply Hready].
        exists item. split; [by apply Hkeep|done].
      * intros Hrec. apply IH in Hrec as (-> & pushed & -> & Hperm & Hsub & Hready).
        split; [done|]. exists pushed.
        split; [done|]. split; [done|]. split; [by apply sublist_cons|done].
    + intros Hrec. apply IH in Hrec as (-> & pushed & -> & Hperm & Hsub & Hready).
      split; [done|]. exists pushed.
      split; [done|]. split; [done|]. split; [by apply sublist_cons|done].
Qed.

(** A list of different numbers below [n] has at most [n] elements. *)
Lemma NoDup_bounded_length (l : list nat) n :
  NoDup l -> (∀ x, x ∈ l -> x < n) -> length l ≤ n.
Proof.
  intros Hnd Hlt.
  transitivity (length (seq 0 n)); [|by rewrite length_seq].
  apply submseteq_length.
  apply NoDup_submseteq; [done|]. intros x Hx.
  apply elem_of_seq. specialize (Hlt x Hx). lia.
Qed.

Lemma queue_inv_count D s :
  queue_inv D s ->
  length (items (priorityQueue s)) + length (finished (trace s))
  ≤ length (store s).
Proof.
  intros (Hnd & Hbound & Hperm & _).
  rewrite <- length_app, <- Hperm. by apply NoDup_bounded_length.
Qed.

Lemma pushed_by_sublist k tr :
  k ≠ ByTransition -> pushed_by k tr `sublist_of` enqueued tr.
Proof.
  intros Hk. induction tr as [|e tr IH]; simpl; [done|].
  destruct e as [k' p| | | |]; simpl; try done.
  destruct k', k; simpl; try done;
    first [by apply sublist_skip | by apply sublist_cons].
Qed.

Lemma dependers_values_NoDup D st tr ph m :
  dependers_inv D st tr -> D !! ph = Some m ->
  NoDup (range_deps m).*2.
Proof.
  intros Hinv Hm. rewrite range_deps_perm.
  apply NoDup_fmap_2_strong; [|apply NoDup_map_to_list].
  intros [c1 q1] [c2 q2] He1%elem_of_map_to_list He2%elem_of_map_to_list Heq.
  simpl in Heq. subst q2.
  destruct (Hinv _ _ _ _ Hm He1) as (it1 & Hit1 & Hc1 & _).
  destruct (Hinv _ _ _ _ Hm He2) as (it2 & Hit2 & Hc2 & _).
  congruence.
Qed.

Lemma enqueued_promoted l : enqueued (map (Pushed ByPromotion) l) = l.
Proof. induction l as [|x l IH]; simpl; [done|]. by rewrite <- IH at 2. Qed.
Lemma finished_pushes k l : finished (map (Pushed k) l) = [].
Proof. by induction l. Qed.
Lemma added_pushes k l : added (map (Pushed k) l) = [].
Proof. by induction l. Qed.
Lemma transitions_promoted l :
  pushed_by ByTransition (map (Pushed ByPromotion) l) = [].
Proof. by induction l. Qed.
Lemma transitions_built l :
  pushed_by ByTransition (map (Pushed ByBuilder) l) = [].
Proof. by induction l. Qed.

Lemma added_finished tr r : r ∈ added tr -> r ∈ finished tr.
Proof.
  induction tr as [|e tr IH]; simpl; [done|].
  destruct e; simpl; try done.
  - intros Hr. right. by apply IH.
  - intros [->|Hr]%elem_of_cons; [left|right; by apply IH].
Qed.

(** A candidate that was popped is not one the loop is done with. *)
Lemma popped_not_finished D s p pq1 :
  queue_inv D s -> heap_Pop (store s) (priorityQueue s) = Some (p, pq1) ->
  (p ∉ finished (trace s)) ∧ (p ∈ enqueued (trace s)) ∧
  p < length (store s).
Proof.
  intros (Hnd & Hbound & Hperm & _) Hpop%heap_Pop_items.
  rewrite Hperm, Hpop in Hnd. simpl in Hnd.
  apply NoDup_cons in Hnd as [Hnin _].
  assert (p ∈ enqueued (trace s)) as Hin.
  { rewrite Hperm, Hpop. left. }
  split; [|split; [done|by apply Hbound]].
  intros Hfin. apply Hnin. apply elem_of_app. by right.
Qed.

Lemma queue_inv_step g h D s s' :
  queue_inv D s -> loop_body g h D s = Some s' ->
  queue_inv D s' ∧ length (store s') = length (store s) ∧
  measure s' < measure s.
Proof.
  intros Hinv Hbody.
  pose proof (queue_inv_count _ _ Hinv) as Hcount.
  apply loop_body_cases in Hbody
    as (p & pq1 & prioItem & Hpop & Hitem & Hcase).
  destruct (popped_not_finished _ _ _ _ Hinv Hpop) as (Hpfin & Hpenq & Hplt).
  pose proof (heap_Pop_items _ _ _ _ Hpop) as Hpopped.
  destruct Hinv as (Hnd & Hbound & Hperm & Hfresh & Htc & Hts & Hdep & Hhash).
  cbn zeta in Hcase.
  assert (∀ s1, queue_inv D s1 -> length (store s1) = length (store s) ->
                finished (trace s1) = finished (trace s) ++ [p] ->
                pushed_by ByTransition (trace s1)
                = pushed_by ByTransition (trace s) ->
                measure s1 < measure s) as Hdone.
  { intros s1 Hinv1 Hlen1 Hfin1 Htr1.
    apply queue_inv_count in Hinv1. unfold measure.
    rewrite Hfin1, length_app in *. simpl in *. rewrite Hlen1, Htr1 in *.
    lia. }
  destruct Hcase as [Hskip|[Hback|Hadd]].
  - (* the candidate is dropped *)
    destruct Hskip as (pq2 & sorted & tr & -> & Hpq2 & Hsorted & Htr).
    assert (enqueued (trace s ++ Popped p :: tr ++ [Skipped p])
            = enqueued (trace s)) as Henq.
    { rewrite enqueued_app. destruct Htr as [->| ->]; simpl;
        by rewrite app_nil_r. }
    assert (finished (trace s ++ Popped p :: tr ++ [Skipped p])
            = finished (trace s) ++ [p]) as Hfin.
    { rewrite finished_app. by destruct Htr as [->| ->]. }
    assert (added (trace s ++ Popped p :: tr ++ [Skipped p])
            = added (trace s)) as Hadded.
    { rewrite added_app. destruct Htr as [->| ->]; simpl;
        by rewrite app_nil_r. }
    assert (pushed_by ByTransition (trace s ++ Popped p :: tr ++ [Skipped p])
            = pushed_by ByTransition (trace s)) as Htrans.
    { rewrite pushed_by_app. destruct Htr as [->| ->]; simpl;
        by rewrite app_nil_r. }
    match goal with |- queue_inv D ?s1 ∧ _ =>
      assert (queue_inv D s1) as Hinv1 end.
    { unfold queue_inv. simpl. rewrite Henq, Hfin, Htrans.
      split; [done|]. split; [done|].
      split.
      { rewrite Hperm, Hpopped, Hpq2. simpl.
        rewrite (Permutation_app_comm (finished (trace s)) [p]). simpl.
        by rewrite <- Permutation_middle. }
      split; [done|]. split; [done|].
      split.
      { intros Hs. apply Hts. destruct (sortedByFee s); [|done].
        by rewrite Hsorted in Hs. }
      split; [|done].
      by eapply dependers_inv_trace; [|exact Hdep]. }
    split; [done|]. split; [done|]. by apply Hdone.
  - (* the candidate is pushed back *)
    destruct Hback as (pq2 & Hs & -> & Hpq2).
    specialize (Hts Hs).
    match goal with |- queue_inv D ?s1 ∧ _ =>
      assert (queue_inv D s1) as Hinv1 end.
    { unfold queue_inv. simpl.
      rewrite enqueued_app, finished_app, pushed_by_app. simpl.
      rewrite !app_nil_r, Hts. simpl.
      split; [done|]. split; [done|].
      split; [by rewrite Hperm, Hpopped, Hpq2|].
      split; [done|]. split; [done|]. split; [done|].
      split; [|done].
      eapply dependers_inv_trace; [|exact Hdep].
      rewrite added_app. simpl. by rewrite app_nil_r. }
    split; [done|]. split; [done|].
    unfold measure. simpl. rewrite finished_app, pushed_by_app. simpl.
    rewrite app_nil_r, Hts. simpl. lia.
  - (* the candidate is added *)
    destruct Hadd as (pq2 & sorted & tr & numSigOps & _ & _ & _ & Hpq2
                      & Hsorted & Htr & ->).
    rewrite add_tx_fields. cbn zeta.
    set (parent := txHash (PrioItem.tx prioItem)).
    set (deps := match D !! parent with
                 | Some m => range_deps m
                 | None => []
                 end).
    set (tr0 := trace s ++ Popped p :: tr).
    destruct (promote parent deps (store s) pq2 (tr0 ++ [Added p]))
      as [[st' pq'] tr'] eqn:Hprom.
    apply promote_spec in Hprom
      as (-> & pushed & -> & Hpq' & Hsub & Hready).
    simpl.
    assert (enqueued tr0 = enqueued (trace s)) as Henq0.
    { unfold tr0. rewrite enqueued_app.
      destruct Htr as [->| ->]; simpl; by rewrite app_nil_r. }
    assert (finished tr0 = finished (trace s)) as Hfin0.
    { unfold tr0. rewrite finished_app.
      destruct Htr as [->| ->]; simpl; by rewrite app_nil_r. }
    assert (added tr0 = added (trace s)) as Hadded0.
    { unfold tr0. rewrite added_app.
      destruct Htr as [->| ->]; simpl; by rewrite app_nil_r. }
    assert (pushed_by ByTransition tr0 = pushed_by ByTransition (trace s))
      as Htrans0.
    { unfold tr0. rewrite pushed_by_app.
      destruct Htr as [->| ->]; simpl; by rewrite app_nil_r. }
    (* every dependent still waits for the parent and was never pushed *)
    assert (NoDup deps.*2) as Hdeps_nd.
    { unfold deps. destruct (D !! parent) as [m|] eqn:Hm;
        [by eapply dependers_values_NoDup|apply NoDup_nil_2]. }
    assert (∀ q, q ∈ deps.*2 -> q ∉ enqueued (trace s)) as Hdeps_fresh.
    { intros q Hq. unfold deps in Hq.
      destruct (D !! parent) as [m|] eqn:Hm; [|by apply elem_of_nil in Hq].
      apply list_elem_of_fmap in Hq as ([c q'] & -> & Hcq). simpl.
      rewrite range_deps_perm in Hcq. apply elem_of_map_to_list in Hcq.
      destruct (Hdep _ _ _ _ Hm Hcq) as (it & Hit & _ & Hwait).
      destruct Hwait as [Hin|(r & itr & Hr & Hitr & Hph)].
      - apply (Hfresh _ _ Hit). set_solver.
      - exfalso. assert (r = p) as ->.
        { eapply NoDup_lookup; [exact Hhash| |].
          - by rewrite list_lookup_fmap, Hitr.
          - rewrite list_lookup_fmap, Hitem. simpl. by rewrite Hph. }
        by apply Hpfin, added_finished. }
    assert (∀ q it', delete_all parent deps.*2 (store s) !! q = Some it' ->
              ∃ it, store s !! q = Some it ∧
                    item_hash it' = item_hash it ∧
                    deps_of it' ⊆ deps_of it ∧
                    deps_of it ⊆ deps_of it' ∪ {[parent]}) as Hst'.
    { intros q it' Hq. rewrite delete_all_lookup in Hq.
      destruct (decide _).
      - destruct (store s !! q) as [it|]; simplify_eq/=.
        exists it. split; [done|]. split; [done|].
        rewrite delete_dependsOn_deps.
        split; [set_solver|]. intros x Hx.
        destruct (decide (x = parent)); set_solver.
      - exists it'. split; [done|]. split; [done|]. set_solver. }
    assert (∀ q it, store s !! q = Some it ->
              ∃ it', delete_all parent deps.*2 (store s) !! q = Some it' ∧
                     item_hash it' = item_hash it ∧
                     deps_of it ⊆ deps_of it' ∪ {[parent]}) as Hst.
    { intros q it Hq. rewrite delete_all_lookup, Hq.
      destruct (decide _); simpl.
      - eexists. split; [done|]. split; [done|].
        rewrite delete_dependsOn_deps. intros x Hx.
        destruct (decide (x = parent)); set_solver.
      - exists it. split; [done|]. split; [done|]. set_solver. }
    match goal with |- queue_inv D ?s1 ∧ _ =>
      assert (queue_inv D s1) as Hinv1 end.
    { unfold queue_inv. simpl.
      rewrite !enqueued_app, !finished_app, !pushed_by_app.
      rewrite enqueued_promoted, finished_pushes, transitions_promoted.
      rewrite Henq0, Hfin0, Htrans0. simpl. rewrite !app_nil_r.
      split.
      { apply NoDup_app. split; [done|].
        split; [|by eapply sublist_NoDup].
        intros q Hq Hq'. apply (Hdeps_fresh q); [|done].
        by eapply elem_of_sublist. }
      split.
      { rewrite delete_all_length.
        intros q [Hq|Hq]%elem_of_app; [by apply Hbound|].
        destruct (Hready _ Hq) as (it & Hit & _).
        apply lookup_lt_Some in Hit. by rewrite delete_all_length in Hit. }
      split.
      { rewrite Hpq', Hperm, Hpopped, Hpq2. simpl.
        rewrite (Permutation_app_comm (finished (trace s)) [p]). simpl.
        rewrite <- Permutation_middle. f_equiv.
        rewrite (Permutation_app_comm pushed), <- !app_assoc. f_equiv.
        apply Permutation_app_comm. }
      split.
      { intros q it' Hq Hne [Hin|Hin]%elem_of_app.
        - destruct (Hst' _ _ Hq) as (it & Hit & _ & Hsub' & _).
          apply (Hfresh _ _ Hit); [set_solver|done].
        - destruct (Hready _ Hin) as (it & Hit & Hempty).
          simplify_eq. by apply dependsOn_empty_deps in Hempty. }
      split; [done|].
      split.
      { intros Hs. apply Hts. destruct (sortedByFee s); [|done].
        by rewrite Hsorted in Hs. }
      split; [|by rewrite delete_all_hashes].
      intros ph m c q Hm Hq.
      destruct (Hdep _ _ _ _ Hm Hq) as (it & Hit & Hc & Hwait).
      destruct (Hst _ _ Hit) as (it' & Hit' & Hhash' & Hsub').
      exists it'. split; [done|]. split; [congruence|].
      rewrite !added_app, added_pushes, Hadded0. simpl. rewrite app_nil_r.
      destruct Hwait as [Hin|(r & itr & Hr & Hitr & Hph)].
      - destruct (decide (ph = parent)) as [->|Hne].
        + right. destruct (Hst _ _ Hitem) as (itp & Hitp & Hhp & _).
          exists p, itp. split; [apply elem_of_app; right; left|].
          split; [done|]. by rewrite Hhp.
        + left. apply Hsub' in Hin. set_solver.
      - right. destruct (Hst _ _ Hitr) as (itr' & Hitr' & Hhr & _).
        exists r, itr'. split; [apply elem_of_app; by left|].
        split; [done|]. congruence. }
    split; [done|]. split; [apply delete_all_length|].
    apply Hdone; simpl.
    + done.
    + apply delete_all_length.
    + rewrite !finished_app, finished_pushes, Hfin0. simpl.
      by rewrite app_nil_r.
    + rewrite !pushed_by_app, transitions_promoted, Htrans0. simpl.
      by rewrite !app_nil_r.
Qed.

(** Under the bookkeeping of the queue an iteration does not panic. *)
Lemma loop_body_total g h D s :
  queue_inv D s -> Len (priorityQueue s) ≠ 0 ->
  ∃ s', loop_body g h D s = Some s'.
Proof.
  intros Hinv Hlen.
  destruct (heap_Pop_Some (store s) _ Hlen) as (p & pq1 & Hpop).
  destruct (popped_not_finished _ _ _ _ Hinv Hpop) as (_ & _ & Hplt).
  destruct (lookup_lt_is_Some_2 _ _ Hplt) as [prioItem Hitem].
  unfold loop_body. rewrite Hpop. simpl. rewrite Hitem. simpl.
  repeat case_match; eauto.
Qed.

(** The loop ends within [measure] iterations. *)
Lemma assemble_terminates g h D fuel s :
  queue_inv D s -> measure s ≤ fuel ->
  ∃ s', assemble fuel g h D s = Ok s' ∧ queue_inv D s' ∧
        Len (priorityQueue s') = 0.
Proof.
  revert s. induction fuel as [|fuel IH]; intros s Hinv Hm; simpl.
  - destruct (decide _) as [Hz|Hnz]; [by exists s|].
    destruct (loop_body_total g h D s Hinv Hnz) as [s1 Hbody].
    apply (queue_inv_step _ _ _ _ _ Hinv) in Hbody as (_ & _ & Hlt). lia.
  - destruct (decide _) as [Hz|Hnz]; [by exists s|].
    destruct (loop_body_total g h D s Hinv Hnz) as [s1 Hbody].
    rewrite Hbody. simpl.
    apply (queue_inv_step _ _ _ _ _ Hinv) in Hbody as (Hinv1 & _ & Hlt).
    apply IH; [done|lia].
Qed.

(** The builder hands the loop a queue that is in order. *)
Lemma queue_inv_start g h coinbaseTx D clock s0 :
  NoDup (pool_hashes (MiningDescs (txSource g))) ->
  start_assembly g h coinbaseTx = Some (D, clock, s0) ->
  queue_inv D s0 ∧ measure s0 ≤ 2 * length (MiningDescs (txSource g)) + 1.
Proof.
  intros Hpool (b & Hloop & -> & -> & ->)%start_assembly_Some.
  apply mempoolLoop_inv in Hloop; [|apply builder_inv_start].
  destruct Hloop
    as (Htr & Hnd & Hbound & Hperm & Hnone & Hdep & _ & Hlen & Hhash).
  specialize (Hhash Hpool). rewrite app_nil_r in Hhash.
  simpl in Hlen.
  assert (finished (b_trace b) = []) as Hfin
    by (rewrite Htr; apply finished_pushes).
  assert (pushed_by ByTransition (b_trace b) = []) as Htrans
    by (rewrite Htr; apply transitions_built).
  split.
  - unfold queue_inv. simpl. rewrite Hfin, Htrans, app_nil_r.
    split; [done|]. split; [done|]. split; [done|].
    split.
    { intros q it Hq Hne Hin. apply Hne.
      unfold deps_of. by rewrite (Hnone _ _ Hq Hin). }
    split; [simpl; lia|]. split; [done|]. done.
  - unfold measure. simpl. rewrite Hfin, Htrans. simpl. lia.
Qed.

End QueueFacts.

(** ** Termination of the assembly loop *)

Section Termination.
Context `{Txscript} `{Wire} `{Blockchain} `{!Mining} `{ScriptData} `{MapRange}.

Lemma add_transactions_returns (txns : list Tx) (acc : Result MsgBlock) :
  acc ≠ OutOfFuel ->
  foldl (fun acc tx =>
           b ← acc;
           if AddTransactionFails b (MsgTx_of tx) then Err ErrAddTransaction
           else Ok (mkMsgBlock (Header b) (Transactions b ++ [MsgTx_of tx])))
        acc txns ≠ OutOfFuel.
Proof.
  revert acc. induction txns as [|tx txns IH]; intros acc Hacc; simpl; [done|].
  apply IH. destruct acc; simpl; try done. by destruct (AddTransactionFails _ _).
Qed.

(** The finalizer has no loop of its own. *)
Lemma finish_template_returns g best h valid key clock s :
  finish_template g best h valid key clock s ≠ OutOfFuel.
Proof.
  unfold finish_template. cbn zeta.
  destruct (blockTxns s !! 0) as [cb|]; [|done]. simpl.
  destruct (txOut (MsgTx_of cb) !! 0) as [out0|] eqn:Hout; [|done]. simpl.
  assert (∀ bs pk,
    (cbMsg ← or_panic (set_coinbase_out (MsgTx_of cb)
                         (Int.add64 (Value out0) (totalFees s)) pk);
     let blockTxns := <[0 := NewTx cbMsg]> (blockTxns s) in
     let ts := medianAdjustedTime best (AdjustedTime (timeSource g) clock) in
     reqDifficulty ←
       or_error ErrDifficulty (CalcNextRequiredDifficulty (chain g));
     let header :=
       mkBlockHeader generatedBlockVersion (bestHash best)
         (BuildMerkleRoot blockTxns) ts reqDifficulty
         (Int.wrapU32 h) bs None in
     let header := fst (Sign header key) in
     msgBlock ←
       foldl (fun acc tx =>
                b ← acc;
                if AddTransactionFails b (MsgTx_of tx)
                then Err ErrAddTransaction
                else Ok (mkMsgBlock (Header b)
                                    (Transactions b ++ [MsgTx_of tx])))
             (Ok (mkMsgBlock header [])) blockTxns;
     if negb (CheckConnectBlock (chain g) msgBlock) then Err ErrCheckConnect
     else Ok (mkTemplate msgBlock
                (<[0 := Int.neg64 (totalFees s)]> (txFees s))
                (txSigOpCounts s) h valid)) ≠ OutOfFuel) as Hrest.
  { intros bs pk.
    destruct (set_coinbase_out _ _ _) as [cbMsg|]; [|done]. simpl.
    destruct (CalcNextRequiredDifficulty (chain g)) as [bits|]; [|done]. simpl.
    match goal with |- context [foldl ?f ?a ?l] =>
      pose proof (add_transactions_returns l a ltac:(done)) as Hadd;
      destruct (foldl f a l) as [msgBlock| | |]; try done end.
    simpl. by destruct (negb _). }
  destruct (_ =? 0)%Z; simpl; apply Hrest.
Qed.

(** C9.  For a source pool whose transactions have different hashes the
    assembly loop ends, within twice the size of the pool plus one
    iterations, with an empty queue; no candidate was pushed twice by the
    builder or twice by the promotion of dependents (nor once by each), and
    the transition to the fee order pushed back at most one candidate.  So
    [NewBlockTemplate] does not run out of fuel. *)
Theorem C9_assembly_loop_terminates (g : BlkTmplGenerator) (fuel : nat)
  (payToAddress : option Address) (validateKey : PrivateKey) :
  NoDup (pool_hashes (MiningDescs (txSource g))) ->
  2 * length (MiningDescs (txSource g)) + 1 ≤ fuel ->
  NewBlockTemplate fuel g payToAddress validateKey ≠ OutOfFuel ∧
  ∀ h coinbaseTx dependers clock s0,
    start_assembly g h coinbaseTx = Some (dependers, clock, s0) ->
    ∃ s, assemble fuel g h dependers s0 = Ok s ∧
         Len (priorityQueue s) = 0 ∧
         NoDup (pushed_by ByBuilder (trace s)) ∧
         NoDup (pushed_by ByPromotion (trace s)) ∧
         NoDup (enqueued (trace s)) ∧
         length (pushed_by ByTransition (trace s)) ≤ 1.
Proof.
  intros Hpool Hfuel.
  assert (∀ h coinbaseTx dependers clock s0,
    start_assembly g h coinbaseTx = Some (dependers, clock, s0) ->
    ∃ s, assemble fuel g h dependers s0 = Ok s ∧
         Len (priorityQueue s) = 0 ∧
         NoDup (pushed_by ByBuilder (trace s)) ∧
         NoDup (pushed_by ByPromotion (trace s)) ∧
         NoDup (enqueued (trace s)) ∧
         length (pushed_by ByTransition (trace s)) ≤ 1) as Hloop.
  { intros h cb D clock s0 Hstart.
    destruct (queue_inv_start _ _ _ _ _ _ Hpool Hstart) as [Hinv Hm].
    destruct (assemble_terminates g h D fuel s0 Hinv ltac:(lia))
      as (s & Hasm & Hinv' & Hlen).
    exists s. split; [done|]. split; [done|].
    destruct Hinv' as (Hnd & _ & _ & _ & Htc & _).
    split; [by apply (sublist_NoDup _ _ Hnd), pushed_by_sublist|].
    split; [by apply (sublist_NoDup _ _ Hnd), pushed_by_sublist|].
    done. }
  split; [|exact Hloop].
  unfold NewBlockTemplate. cbn zeta.
  destruct standardCoinbaseScript as [cs|]; [|done]. simpl.
  destruct (createCoinbaseTx _ _ _) as [cb|]; [|done]. simpl.
  destruct (start_assembly _ _ _) as [[[D clock] s0]|] eqn:Hstart; [|done].
  simpl.
  destruct (Hloop _ _ _ _ _ Hstart) as (s & -> & _). simpl.
  apply finish_template_returns.
Qed.

End Termination.

Lemma C9_assembly_loop_terminates_witness :
  NoDup (pool_hashes (MiningDescs (txSource Example.ex_gen_chain))) ∧
  2 * length (MiningDescs (txSource Example.ex_gen_chain)) + 1 ≤ 5 ∧
  NewBlockTemplate 5 Example.ex_gen_chain None tt ≠ OutOfFuel ∧
  ∀ h coinbaseTx dependers clock s0,
    start_assembly Example.ex_gen_chain h coinbaseTx
      = Some (dependers, clock, s0) ->
    ∃ s, assemble 5 Example.ex_gen_chain h dependers s0 = Ok s ∧
         Len (priorityQueue s) = 0 ∧
         NoDup (pushed_by ByBuilder (trace s)) ∧
         NoDup (pushed_by ByPromotion (trace s)) ∧
         NoDup (enqueued (trace s)) ∧
         length (pushed_by ByTransition (trace s)) ≤ 1.
Proof.
  assert (NoDup (pool_hashes (MiningDescs (txSource Example.ex_gen_chain))))
    as Hpool by (apply (bool_decide_unpack _); vm_compute; exact I).
  assert (2 * length (MiningDescs (txSource Example.ex_gen_chain)) + 1 ≤ 5)
    as Hfuel by (simpl; lia).
  split; [exact Hpool|]. split; [exact Hfuel|].
  exact (C9_assembly_loop_terminates Example.ex_gen_chain 5 None tt
           Hpool Hfuel).
Defined.

(** ** Parents before children *)

Section Order.
Context `{Txscript} `{Wire} `{Blockchain} `{!Mining} `{ScriptData} `{MapRange}.

Lemma delete_all_tx parent l st q it' :
  delete_all parent l st !! q = Some it' ->
  ∃ it, st !! q = Some it ∧ PrioItem.tx it' = PrioItem.tx it ∧
        deps_of it' ⊆ deps_of it ∧ deps_of it ⊆ deps_of it' ∪ {[parent]}.
Proof.
  intros Hq. rewrite delete_all_lookup in Hq. destruct (decide _).
  - destruct (st !! q) as [it|]; simplify_eq/=.
    exists it. split; [done|]. split; [done|].
    rewrite delete_dependsOn_deps.
    split; [set_solver|]. intros x Hx.
    destruct (decide (x = parent)); set_solver.
  - exists it'. split; [done|]. split; [done|]. set_solver.
Qed.

Lemma delete_all_tx_inv parent l st q it :
  st !! q = Some it ->
  ∃ it', delete_all parent l st !! q = Some it' ∧
         PrioItem.tx it' = PrioItem.tx it ∧
         deps_of it' ⊆ deps_of it ∧ deps_of it ⊆ deps_of it' ∪ {[parent]}.
Proof.
  intros Hq.
  destruct (lookup_lt_is_Some_2 (delete_all parent l st) q) as [it' Hit'].
  { rewrite delete_all_length. by apply lookup_lt_Some in Hq. }
  exists it'. split; [done|].
  apply delete_all_tx in Hit' as (it1 & Hit1 & Htx & Hs1 & Hs2).
  by simplify_eq.
Qed.

Lemma order_inv_step g h D st0 s s' :
  order_inv st0 s -> loop_body g h D s = Some s' -> order_inv st0 s'.
Proof.
  intros (Hne & Hlen & Hst & Hq & Hblock) Hbody.
  apply loop_body_cases in Hbody
    as (p & pq1 & prioItem & Hpop & Hitem & Hcase).
  pose proof (heap_Pop_items _ _ _ _ Hpop) as Hpopped.
  cbn zeta in Hcase.
  destruct Hcase as [Hskip|[Hback|Hadd]].
  - destruct Hskip as (pq2 & sorted & tr & -> & Hpq2 & _).
    unfold order_inv. simpl. repeat (split; [done|]). split; [|done].
    intros q Hin. apply Hq. rewrite Hpopped. right. by rewrite <- Hpq2.
  - destruct Hback as (pq2 & _ & -> & Hpq2).
    unfold order_inv. simpl. repeat (split; [done|]). split; [|done].
    intros q Hin. apply Hq. by rewrite Hpopped, <- Hpq2.
  - destruct Hadd as (pq2 & sorted & tr & numSigOps & _ & _ & _ & Hpq2
                      & _ & _ & ->).
    rewrite add_tx_fields. cbn zeta.
    set (parent := txHash (PrioItem.tx prioItem)).
    match goal with |- context [promote parent ?deps ?st ?pq ?tr] =>
      destruct (promote parent deps st pq tr) as [[st' pq'] tr'] eqn:Hprom;
      set (l := deps.*2) in * end.
    apply promote_spec in Hprom as (-> & pushed & -> & Hpq' & Hsub & Hready).
    fold l in Hsub |- *. simpl.
    assert (0 < length (blockTxns s)) as Hpos
      by (destruct (blockTxns s); [done|simpl; lia]).
    assert (p ∈ items (priorityQueue s)) as Hpin by (rewrite Hpopped; left).
    unfold order_inv. simpl.
    split; [by destruct (blockTxns s)|].
    split; [by rewrite delete_all_length|].
    split.
    { intros q it0 Hq0.
      destruct (Hst _ _ Hq0) as (it & Hit & Htx & Hwait).
      destruct (delete_all_tx_inv parent l _ _ _ Hit)
        as (it' & Hit' & Htx' & _ & Hsub').
      exists it'. split; [done|]. split; [congruence|].
      intros ph Hph. destruct (Hwait _ Hph) as [Hin|(j & P & Hj & HP & Hh)].
      - destruct (decide (ph = parent)) as [->|Hneq].
        + right. exists (length (blockTxns s)), (PrioItem.tx prioItem).
          split; [done|]. split; [|done].
          by rewrite lookup_app_r, Nat.sub_diag by lia.
        + left. apply Hsub' in Hin. set_solver.
      - right. exists j, P. split; [done|].
        split; [by apply lookup_app_l_Some|done]. }
    split.
    { intros q Hin. rewrite Hpq' in Hin.
      apply elem_of_app in Hin as [Hin|Hin].
      - destruct (Hready _ Hin) as (it & Hit & Hempty).
        exists it. split; [done|]. by apply dependsOn_empty_deps.
      - destruct (Hq q) as (it & Hit & Hempty).
        { rewrite Hpopped. right. by rewrite <- Hpq2. }
        destruct (delete_all_tx_inv parent l _ _ _ Hit)
          as (it' & Hit' & _ & Hsub' & _).
        exists it'. split; [done|]. set_solver. }
    intros k T HT.
    destruct (decide (S k < length (blockTxns s))) as [Hlt|Hge].
    + rewrite lookup_app_l in HT by done.
      destruct (Hblock _ _ HT) as (q & it0 & Hq0 & Htx & Hparents).
      exists q, it0. split; [done|]. split; [done|].
      intros ph Hph. destruct (Hparents _ Hph) as (j & P & Hj & HP & Hh).
      exists j, P. split; [done|]. split; [by apply lookup_app_l_Some|done].
    + assert (S k = length (blockTxns s)) as Hk.
      { apply lookup_lt_Some in HT. rewrite length_app in HT. simpl in HT.
        lia. }
      rewrite Hk, lookup_app_r, Nat.sub_diag in HT by lia. simpl in HT.
      simplify_eq.
      destruct (lookup_lt_is_Some_2 st0 p) as [it0 Hit0].
      { rewrite <- Hlen. by apply lookup_lt_Some in Hitem. }
      destruct (Hst _ _ Hit0) as (it & Hit & Htx & Hwait).
      simplify_eq.
      destruct (Hq _ Hpin) as (it' & Hit' & Hempty). simplify_eq.
      exists p, it0. split; [done|]. split; [done|].
      intros ph Hph. destruct (Hwait _ Hph) as [Hin|(j & P & Hj & HP & Hh)];
        [set_solver|].
      exists j, P. rewrite Hk. split.
      { apply lookup_lt_Some in HP. lia. }
      split; [by apply lookup_app_l_Some|done].
Qed.

Lemma order_inv_start g h coinbaseTx D clock s0 :
  start_assembly g h coinbaseTx = Some (D, clock, s0) ->
  order_inv (store s0) s0 ∧ complete_inv g (store s0).
Proof.
  intros (b & Hloop & -> & -> & ->)%start_assembly_Some.
  apply mempoolLoop_inv in Hloop; [|apply builder_inv_start].
  destruct Hloop
    as (Htr & Hnd & Hbound & Hperm & Hnone & Hdep & Hcomp & Hlen & Hhash).
  split; [|done].
  unfold order_inv. simpl. split; [done|]. split; [done|].
  split.
  { intros q it0 Hq0. exists it0. split; [done|]. split; [done|]. auto. }
  split.
  { intros q Hq. rewrite <- Hperm in Hq.
    destruct (lookup_lt_is_Some_2 (b_store b) q) as [it Hit];
      [by apply Hbound|].
    exists it. split; [done|]. unfold deps_of.
    by rewrite (Hnone _ _ Hit Hq). }
  intros k T HT. by destruct k.
Qed.

(** The parents a candidate lists in its [dependsOn] stand before it in
    the block, for every transaction of a returned template. *)
Lemma listed_parents_before_children fuel g payToAddress validateKey t :
  NewBlockTemplate fuel g payToAddress validateKey = Ok t ->
  ∃ coinbaseTx dependers clock s0,
    start_assembly g (TemplateHeight t) coinbaseTx
      = Some (dependers, clock, s0) ∧
    ∀ k T, Transactions (Block t) !! S k = Some T ->
      ∃ q it0, store s0 !! q = Some it0 ∧
               MsgTx_of (PrioItem.tx it0) = T ∧
               ∀ ph, ph ∈ deps_of it0 ->
                 ∃ j P, 0 < j < S k ∧
                        Transactions (Block t) !! j = Some P ∧
                        TxHashOf P = ph.
Proof.
  intros Hnew.
  apply NewBlockTemplate_Ok in Hnew
    as (cs & cb & D & clock & s0 & s & _ & _ & Hstart & Hasm & Hfin).
  cbn zeta in *.
  destruct (order_inv_start _ _ _ _ _ _ Hstart) as [Hinv0 _].
  destruct (assemble_invariant (order_inv (store s0)) _ _ _
              (fun s s' => order_inv_step _ _ _ _ s s') _ _ _ Hinv0 Hasm)
    as [(_ & _ & _ & _ & Hblock) _].
  apply finish_template_Ok in Hfin
    as (cb' & out0 & outs & cbMsg & _ & _ & _ & Htx & _ & _ & Hh & _).
  rewrite Hh. exists cb, D, clock, s0. split; [done|].
  intros k T HT. rewrite Htx in HT |- *.
  rewrite list_lookup_fmap, list_lookup_insert_ne in HT by done.
  destruct (blockTxns s !! S k) as [T'|] eqn:HT'; [|done].
  simpl in HT. simplify_eq.
  destruct (Hblock _ _ HT') as (q & it0 & Hq0 & Htx0 & Hparents).
  exists q, it0. split; [done|]. split; [by rewrite Htx0|].
  intros ph Hph. destruct (Hparents _ Hph) as (j & P & Hj & HP & Hhash).
  exists j, (MsgTx_of P). split; [done|]. split; [|done].
  rewrite list_lookup_fmap, list_lookup_insert_ne by lia. by rewrite HP.
Qed.

(** In a returned template let [T] be a transaction of the block after
    the coinbase, none of whose inputs is missing from both the chain
    view and the source pool: the builder scanned all its inputs.  Then
    every input of [T] is an unspent output of the chain view fetched
    for [T], or the transaction it spends stands in the block at an
    earlier index than [T]. *)
Lemma parents_before_scanned_children fuel g payToAddress validateKey t k T
  utxos :
  NewBlockTemplate fuel g payToAddress validateKey = Ok t ->
  Transactions (Block t) !! S k = Some T ->
  FetchUtxoView (chain g) (mkTx T) = Some utxos ->
  (∀ i, i ∈ txIn T -> input_unavailable utxos i = true ->
        HaveTransaction (txSource g) (opHash (PreviousOutPoint i)) = true) ->
  ∀ i, i ∈ txIn T ->
       input_unavailable utxos i = false ∨
       ∃ j P, j < S k ∧ Transactions (Block t) !! j = Some P ∧
              TxHashOf P = opHash (PreviousOutPoint i).
Proof.
  intros Hnew HT Hfetch Hpool i Hi.
  destruct (input_unavailable utxos i) eqn:Hun; [right|by left].
  apply NewBlockTemplate_Ok in Hnew
    as (cs & cb & D & clock & s0 & s & _ & _ & Hstart & Hasm & Hfin).
  cbn zeta in *.
  destruct (order_inv_start _ _ _ _ _ _ Hstart) as [Hinv0 Hcomp].
  destruct (assemble_invariant (order_inv (store s0)) _ _ _
              (fun s s' => order_inv_step _ _ _ _ s s') _ _ _ Hinv0 Hasm)
    as [(_ & _ & _ & _ & Hblock) _].
  apply finish_template_Ok in Hfin
    as (cb' & out0 & outs & cbMsg & _ & _ & _ & Htx & _).
  rewrite Htx in HT |- *.
  rewrite list_lookup_fmap, list_lookup_insert_ne in HT by done.
  destruct (blockTxns s !! S k) as [T'|] eqn:HT'; [|done].
  simpl in HT. simplify_eq.
  destruct (Hblock _ _ HT') as (q & it0 & Hq0 & Htx0 & Hparents).
  destruct T' as [T]. simpl in *.
  assert (opHash (PreviousOutPoint i) ∈ deps_of it0) as Hdep.
  { eapply (Hcomp q it0 utxos); rewrite ?Htx0; done. }
  destruct (Hparents _ Hdep) as (j & P & Hj & HP & Hh).
  exists j, (MsgTx_of P). split; [lia|]. split; [|done].
  rewrite list_lookup_fmap, list_lookup_insert_ne by lia. by rewrite HP.
Qed.

End Order.

Lemma parents_before_scanned_children_witness :
  NewBlockTemplate 5 Example.ex_gen_chain None tt
    = Ok Example.ex_template_chain ∧
  Transactions (Block Example.ex_template_chain) !! 2
    = Some (MsgTx_of Example.ex_tx21) ∧
  FetchUtxoView (chain Example.ex_gen_chain)
    (mkTx (MsgTx_of Example.ex_tx21)) = Some Example.ex_view21 ∧
  (∀ i, i ∈ txIn (MsgTx_of Example.ex_tx21) ->
        input_unavailable Example.ex_view21 i = true ->
        HaveTransaction (txSource Example.ex_gen_chain)
          (opHash (PreviousOutPoint i)) = true) ∧
  ∀ i, i ∈ txIn (MsgTx_of Example.ex_tx21) ->
       input_unavailable Example.ex_view21 i = false ∨
       ∃ j P, j < 2 ∧
              Transactions (Block Example.ex_template_chain) !! j = Some P ∧
              TxHashOf P = opHash (PreviousOutPoint i).
Proof.
  assert (NewBlockTemplate 5 Example.ex_gen_chain None tt
          = Ok Example.ex_template_chain) as Hrun
    by (vm_compute; reflexivity).
  assert (Transactions (Block Example.ex_template_chain) !! 2
          = Some (MsgTx_of Example.ex_tx21)) as HT by reflexivity.
  assert (FetchUtxoView (chain Example.ex_gen_chain)
            (mkTx (MsgTx_of Example.ex_tx21)) = Some Example.ex_view21)
    as Hfetch by reflexivity.
  assert (∀ i, i ∈ txIn (MsgTx_of Example.ex_tx21) ->
            input_unavailable Example.ex_view21 i = true ->
            HaveTransaction (txSource Example.ex_gen_chain)
              (opHash (PreviousOutPoint i)) = true) as Hpool.
  { intros i Hi _. simpl in Hi. apply list_elem_of_singleton in Hi as ->.
    vm_compute. reflexivity. }
  split; [exact Hrun|]. split; [exact HT|]. split; [exact Hfetch|].
  split; [exact Hpool|].
  exact (parents_before_scanned_children 5 Example.ex_gen_chain None tt
           Example.ex_template_chain 1 (MsgTx_of Example.ex_tx21)
           Example.ex_view21 Hrun HT Hfetch Hpool).
Defined.


